(** * Task dispatch and log correlation in stash-plugin-recraft-icons

    A shallow embedding of the dispatch / poll / extract / retry core of
    the plugin:

    - [pollLogsForMessage] and [runPluginTask] of the shared helper
      library ([window.stashFunctions]),
    - [pollLogsWithRetries] and [fetchTagIcon] of
      [js/stash-plugin-recraft-icons.js],

    together with the JavaScript built-ins they rely on
    ([String.prototype.startsWith], [replace], [trim], [JSON.parse],
    truthiness and property access). *)

From Stdlib Require Import List ZArith NArith Bool Lia Sorted Permutation.
From Stdlib Require String Ascii.
Import ListNotations String.StringSyntax.

(* ================================================================== *)
(** * JavaScript strings *)
(* ================================================================== *)

(** A JavaScript string is a sequence of UTF-16 code units. *)
Definition jsstring := list N.

(** The code units of an ASCII literal. *)
Definition lit (s : String.string) : jsstring :=
  map Ascii.N_of_ascii (String.list_ascii_of_string s).

Arguments lit s%_string_scope.

Module JsString.

Fixpoint eqb (a b : jsstring) : bool :=
  match a, b with
  | [], [] => true
  | x :: a', y :: b' => N.eqb x y && eqb a' b'
  | _, _ => false
  end.

(** [s.startsWith(prefix)] *)
Fixpoint startsWith (s prefix : jsstring) : bool :=
  match prefix with
  | [] => true
  | p :: prefix' =>
      match s with
      | [] => false
      | c :: s' => N.eqb c p && startsWith s' prefix'
      end
  end.

(** [s.replace(pattern, '')] with a string pattern: the first occurrence
    of [pattern] is removed, later ones stay. *)
Fixpoint replace_with_empty (s pattern : jsstring) : jsstring :=
  if startsWith s pattern then skipn (length pattern) s
  else match s with
       | [] => []
       | c :: s' => c :: replace_with_empty s' pattern
       end.

(** WhiteSpace and LineTerminator code units of ECMAScript, the ones
    [trim] strips: TAB, LF, VT, FF, CR, SP, NBSP, the Zs category,
    LS, PS and the BOM. *)
Definition isWhiteSpace (c : N) : bool :=
  ((9 <=? c) && (c <=? 13) || (c =? 32) || (c =? 160) || (c =? 5760)
   || (8192 <=? c) && (c <=? 8202) || (c =? 8232) || (c =? 8233)
   || (c =? 8239) || (c =? 8287) || (c =? 12288) || (c =? 65279))%N.

Fixpoint trimStart (s : jsstring) : jsstring :=
  match s with
  | [] => []
  | c :: s' => if isWhiteSpace c then trimStart s' else s
  end.

Definition trimEnd (s : jsstring) : jsstring := rev (trimStart (rev s)).

(** [s.trim()] *)
Definition trim (s : jsstring) : jsstring := trimEnd (trimStart s).

End JsString.

(* ================================================================== *)
(** * JSON values and [JSON.parse] *)
(* ================================================================== *)

(** The values [JSON.parse] can produce.  A number is kept as the
    decimal [(-1)^neg * mantissa * 10^exp10] its literal denotes and
    stands for the double nearest to it, the number the program holds:
    two decimals with the same nearest double are the same number to the
    program.  The code reads a parsed number for its truthiness only
    (see [numberIsZero]).  An object keeps its members in source
    order. *)
#[local] Unset Elimination Schemes.
Inductive JValue : Type :=
| JNull
| JBool (b : bool)
| JNumber (neg : bool) (mantissa : N) (exp10 : Z)
| JString (s : jsstring)
| JArray (items : list JValue)
| JObject (members : list (jsstring * JValue)).
#[local] Set Elimination Schemes.

Module Json.

(** JSON insignificant whitespace: SP, TAB, LF, CR. *)
Definition isWs (c : N) : bool :=
  ((c =? 32) || (c =? 9) || (c =? 10) || (c =? 13))%N.

Fixpoint skipWs (s : jsstring) : jsstring :=
  match s with
  | [] => []
  | c :: s' => if isWs c then skipWs s' else s
  end.

Definition isDigit (c : N) : bool := ((48 <=? c) && (c <=? 57))%N.

Definition hexVal (c : N) : option N :=
  if ((48 <=? c) && (c <=? 57))%N then Some (c - 48)%N
  else if ((65 <=? c) && (c <=? 70))%N then Some (c - 55)%N
  else if ((97 <=? c) && (c <=? 102))%N then Some (c - 87)%N
  else None.

(** The characters of a string literal after its opening quote, up to
    and including the closing quote. *)
Fixpoint parseChars (s : jsstring) (acc : jsstring)
  : option (jsstring * jsstring) :=
  match s with
  | [] => None
  | c :: s' =>
      if (c =? 34)%N then Some (rev acc, s')
      else if (c =? 92)%N then
        match s' with
        | e :: s'' =>
            if (e =? 34)%N then parseChars s'' (34%N :: acc)
            else if (e =? 92)%N then parseChars s'' (92%N :: acc)
            else if (e =? 47)%N then parseChars s'' (47%N :: acc)
            else if (e =? 98)%N then parseChars s'' (8%N :: acc)
            else if (e =? 102)%N then parseChars s'' (12%N :: acc)
            else if (e =? 110)%N then parseChars s'' (10%N :: acc)
            else if (e =? 114)%N then parseChars s'' (13%N :: acc)
            else if (e =? 116)%N then parseChars s'' (9%N :: acc)
            else if (e =? 117)%N then
              match s'' with
              | h1 :: h2 :: h3 :: h4 :: s3 =>
                  match hexVal h1, hexVal h2, hexVal h3, hexVal h4 with
                  | Some a, Some b, Some c', Some d =>
                      parseChars s3
                        ((((a * 16 + b) * 16 + c') * 16 + d)%N :: acc)
                  | _, _, _, _ => None
                  end
              | _ => None
              end
            else None
        | [] => None
        end
      else if (c <? 32)%N then None
      else parseChars s' (c :: acc)
  end.

(** A maximal run of decimal digits: its value, its length, the rest. *)
Fixpoint parseDigits (s : jsstring) (val : N) (len : nat)
  : N * nat * jsstring :=
  match s with
  | c :: s' =>
      if isDigit c then parseDigits s' (val * 10 + (c - 48))%N (S len)
      else (val, len, s)
  | [] => (val, len, [])
  end.

(** [int]: a single [0], or a digit from 1 to 9 and the digits after it. *)
Definition parseInt (s : jsstring) : option (N * jsstring) :=
  match s with
  | c :: s' =>
      if (c =? 48)%N then Some (0%N, s')
      else if isDigit c then
             let '(v, _, r) := parseDigits s 0%N 0 in Some (v, r)
           else None
  | [] => None
  end.

(** [frac?]: a point and at least one digit.  The digits extend the
    mantissa [iv]; their number comes back with it. *)
Definition parseFrac (iv : N) (s : jsstring) : option (N * Z * jsstring) :=
  match s with
  | c :: s' =>
      if (c =? 46)%N then
        let '(v, n, r) := parseDigits s' iv 0 in
        match n with
        | O => None
        | S _ => Some (v, Z.of_nat n, r)
        end
      else Some (iv, 0%Z, s)
  | [] => Some (iv, 0%Z, [])
  end.

Definition parseExpDigits (sgn : Z) (s : jsstring) : option (Z * jsstring) :=
  let '(v, n, r) := parseDigits s 0%N 0 in
  match n with
  | O => None
  | S _ => Some ((sgn * Z.of_N v)%Z, r)
  end.

(** [exp?]: [e] or [E], an optional sign and at least one digit. *)
Definition parseExp (s : jsstring) : option (Z * jsstring) :=
  match s with
  | c :: s' =>
      if ((c =? 101) || (c =? 69))%N then
        match s' with
        | d :: s'' =>
            if (d =? 43)%N then parseExpDigits 1%Z s''
            else if (d =? 45)%N then parseExpDigits (-1)%Z s''
            else parseExpDigits 1%Z s'
        | [] => None
        end
      else Some (0%Z, s)
  | [] => Some (0%Z, [])
  end.

(** [-? int frac? exp?] *)
Definition parseNumber (s : jsstring) : option (JValue * jsstring) :=
  let '(neg, s1) :=
    match s with
    | c :: s' => if (c =? 45)%N then (true, s') else (false, s)
    | [] => (false, [])
    end in
  match parseInt s1 with
  | None => None
  | Some (iv, s2) =>
      match parseFrac iv s2 with
      | None => None
      | Some (m, fl, s3) =>
          match parseExp s3 with
          | None => None
          | Some (e, s4) => Some (JNumber neg m (e - fl)%Z, s4)
          end
      end
  end.

Definition parseLiteral (word : jsstring) (v : JValue) (s : jsstring)
  : option (JValue * jsstring) :=
  if JsString.startsWith s word then Some (v, skipn (length word) s)
  else None.

(** Recursive descent over values, array elements and object members. *)
Fixpoint parseValue (fuel : nat) (s : jsstring)
  : option (JValue * jsstring) :=
  match fuel with
  | O => None
  | S fuel' =>
      match skipWs s with
      | [] => None
      | c :: t =>
          if (c =? 123)%N then
            match skipWs t with
            | d :: t' =>
                if (d =? 125)%N then Some (JObject [], t')
                else parseMembers fuel' t []
            | [] => None
            end
          else if (c =? 91)%N then
            match skipWs t with
            | d :: t' =>
                if (d =? 93)%N then Some (JArray [], t')
                else parseElements fuel' t []
            | [] => None
            end
          else if (c =? 34)%N then
            match parseChars t [] with
            | Some (str, r) => Some (JString str, r)
            | None => None
            end
          else if (c =? 116)%N then
            parseLiteral (lit "true") (JBool true) (c :: t)
          else if (c =? 102)%N then
            parseLiteral (lit "false") (JBool false) (c :: t)
          else if (c =? 110)%N then
            parseLiteral (lit "null") JNull (c :: t)
          else parseNumber (c :: t)
      end
  end

with parseElements (fuel : nat) (s : jsstring) (acc : list JValue)
  : option (JValue * jsstring) :=
  match fuel with
  | O => None
  | S fuel' =>
      match parseValue fuel' s with
      | Some (v, r) =>
          match skipWs r with
          | c :: r' =>
              if (c =? 44)%N then parseElements fuel' r' (v :: acc)
              else if (c =? 93)%N then Some (JArray (rev (v :: acc)), r')
              else None
          | [] => None
          end
      | None => None
      end
  end

with parseMembers (fuel : nat) (s : jsstring)
                  (acc : list (jsstring * JValue))
  : option (JValue * jsstring) :=
  match fuel with
  | O => None
  | S fuel' =>
      match skipWs s with
      | c :: t =>
          if (c =? 34)%N then
            match parseChars t [] with
            | Some (key, r) =>
                match skipWs r with
                | d :: r' =>
                    if (d =? 58)%N then
                      match parseValue fuel' r' with
                      | Some (v, r2) =>
                          match skipWs r2 with
                          | e :: r3 =>
                              if (e =? 44)%N then
                                parseMembers fuel' r3 ((key, v) :: acc)
                              else if (e =? 125)%N then
                                Some (JObject (rev ((key, v) :: acc)), r3)
                              else None
                          | [] => None
                          end
                      | None => None
                      end
                    else None
                | [] => None
                end
            | None => None
            end
          else None
      | [] => None
      end
  end.

(** [JSON.parse(text)]; [None] stands for the SyntaxError it throws.
    Every level of nesting and every element costs at most two units
    of fuel and at least one code unit of input. *)
Definition parse (text : jsstring) : option JValue :=
  match parseValue (2 * length text + 2) text with
  | Some (v, r) =>
      match skipWs r with
      | [] => Some v
      | _ :: _ => None
      end
  | None => None
  end.

End Json.

(** ** Truthiness and property access *)

(** The double nearest to [mantissa * 10^exp10] is zero exactly when that
    value is at most [2^-1075] (round to nearest, ties to even). *)
Definition numberIsZero (mantissa : N) (exp10 : Z) : bool :=
  (mantissa =? 0)%N
  || ((exp10 <? 0)%Z
      && (Z.of_N mantissa * 2 ^ 1075 <=? 10 ^ (- exp10))%Z).

(** ToBoolean on a parsed value. *)
Definition truthy (v : JValue) : bool :=
  match v with
  | JNull => false
  | JBool b => b
  | JNumber _ m e => negb (numberIsZero m e)
  | JString s => match s with [] => false | _ :: _ => true end
  | JArray _ => true
  | JObject _ => true
  end.

(** ToBoolean on a value that may be [undefined], written [None]. *)
Definition truthyOpt (v : option JValue) : bool :=
  match v with
  | Some v' => truthy v'
  | None => false
  end.

(** The member a duplicated key ends up with is the last one. *)
Fixpoint lookupMember (key : jsstring) (members : list (jsstring * JValue))
  : option JValue :=
  match members with
  | [] => None
  | (k, v) :: rest =>
      match lookupMember key rest with
      | Some v' => Some v'
      | None => if JsString.eqb k key then Some v else None
      end
  end.

(** [v.url] for a non-null parsed value [v]: only an object can own the
    property; on a primitive or an array the read gives [undefined]. *)
Definition getUrl (v : JValue) : option JValue :=
  match v with
  | JObject members => lookupMember (lit "url") members
  | _ => None
  end.

(** ** Conversion to a string *)

(** Whether a parsed value can be converted to a string, as a template
    literal does with [${v}].  A primitive always can.  An object is
    converted through its [toString]: a member of that name, which no
    parsed value can make callable, hides the inherited method and the
    conversion ends in a TypeError; without one the inherited method
    answers.  An array joins the conversions of its items, where
    [null] counts as the empty string. *)
Fixpoint stringifies (v : JValue) : bool :=
  match v with
  | JNull => true
  | JBool _ => true
  | JNumber _ _ _ => true
  | JString _ => true
  | JArray items => forallb stringifies items
  | JObject members =>
      match lookupMember (lit "toString") members with
      | Some _ => false
      | None => true
      end
  end.

(** The same for a value that may be [undefined], which converts to
    the text [undefined]. *)
Definition stringifiesOpt (v : option JValue) : bool :=
  match v with
  | Some v' => stringifies v'
  | None => true
  end.

(* ================================================================== *)
(** * The outside world *)
(* ================================================================== *)

(** One entry of the server log as the [Logs] query returns it.  The code
    reads [log.time] only through [Date.parse], so the field holds that
    reading: milliseconds since the epoch, [None] where [Date.parse]
    gives [NaN]. *)
Record LogEntry : Type := mkLog {
  time : option Z;
  level : jsstring;
  message : jsstring
}.

(** How a promise returned by [csLib.callGQL] settles. *)
Inductive Reply (A : Type) : Type :=
| Resolves (a : A)
| Rejects (reason : jsstring).

Arguments Resolves {A} a.
Arguments Rejects {A} reason.

(** One run of the program sees the clock, the task runner and the log
    endpoint through their successive answers: the [k]-th evaluation of
    [Date.now()], the [k]-th [RunPluginTask] mutation, the [k]-th [Logs]
    query (all counted from 0). *)
Record Env : Type := mkEnv {
  clock : nat -> Z;
  runTaskReply : nat -> Reply unit;
  logsReply : nat -> Reply (list LogEntry)
}.

(** What the program does to the outside, in the order it does it. *)
Inductive Event : Type :=
| DateNow (t : Z)
| SetTimeout (ms : Z)
| RunPluginTask (pluginId taskName : jsstring)
                (args : list (jsstring * jsstring))
| QueryLogs
| ConsoleLogUrl (tagName : jsstring) (url : option JValue)
| ConsoleWarnRetry (attempts : Z) (tagName : jsstring)
| ToastError (tagName : jsstring)
| ConsoleErrorNoImage (tagName : jsstring).

Abbreviation Trace := (list Event).

Definition isDateNow (ev : Event) : bool :=
  match ev with DateNow _ => true | _ => false end.

Definition isRunPluginTask (ev : Event) : bool :=
  match ev with RunPluginTask _ _ _ => true | _ => false end.

Definition isQueryLogs (ev : Event) : bool :=
  match ev with QueryLogs => true | _ => false end.

Definition count (p : Event -> bool) (tr : Trace) : nat :=
  length (filter p tr).

Definition clockReads : Trace -> nat := count isDateNow.
Definition submissions : Trace -> nat := count isRunPluginTask.
Definition logQueries : Trace -> nat := count isQueryLogs.

(** The delays of the timers set along a trace, in order. *)
Fixpoint timeouts (tr : Trace) : list Z :=
  match tr with
  | [] => []
  | SetTimeout ms :: tr' => ms :: timeouts tr'
  | _ :: tr' => timeouts tr'
  end.

(** The values the code throws or rejects with. *)
Inductive Err : Type :=
| ErrGQL (reason : jsstring)       (* a rejection out of [csLib.callGQL] *)
| ErrThrown (text : jsstring)      (* [throw `...`], a thrown string *)
| ErrSyntax                        (* the SyntaxError of [JSON.parse] *)
| ErrType                          (* the TypeError of a failed conversion *)
| ErrError (text : jsstring).      (* [new Error(text)] *)

(** How the promise of an asynchronous call ends.  [Unsettled] is a
    promise neither resolved nor rejected, ever; [OutOfFuel] belongs to
    the model only (a loop bound that was too small). *)
Inductive Settled (A : Type) : Type :=
| Fulfilled (a : A)
| Rejected (e : Err)
| Unsettled
| OutOfFuel.

Arguments Fulfilled {A} a.
Arguments Rejected {A} e.
Arguments Unsettled {A}.
Arguments OutOfFuel {A}.

(** An asynchronous computation: from the trace so far to its outcome
    and the extended trace. *)
Definition Async (A : Type) : Type := Trace -> Settled A * Trace.

Definition ret {A} (a : A) : Async A := fun tr => (Fulfilled a, tr).

Definition throw {A} (e : Err) : Async A := fun tr => (Rejected e, tr).

Definition outOfFuel {A} : Async A := fun tr => (OutOfFuel, tr).

(** [await m], then the continuation; a rejection propagates. *)
Definition bind {A B} (m : Async A) (k : A -> Async B) : Async B :=
  fun tr =>
    match m tr with
    | (Fulfilled a, tr') => k a tr'
    | (Rejected e, tr') => (Rejected e, tr')
    | (Unsettled, tr') => (Unsettled, tr')
    | (OutOfFuel, tr') => (OutOfFuel, tr')
    end.

Notation "'do' x <- m ;; k" := (bind m (fun x => k))
  (at level 10, x name, m at level 100, k at level 200).

Definition emit (ev : Event) : Async unit :=
  fun tr => (Fulfilled tt, tr ++ [ev]).

(** An argument of a call, for the ones a callee has no parameter for. *)
Inductive JsArg : Type :=
| ArgString (s : jsstring)
| ArgNumber (n : Z).

Section Program.

Variable env : Env.

(** [Date.now()] *)
Definition dateNow : Async Z :=
  fun tr =>
    let t := clock env (clockReads tr) in (Fulfilled t, tr ++ [DateNow t]).

(** [await new Promise(r => setTimeout(r, ms))] *)
Definition sleep (ms : Z) : Async unit := emit (SetTimeout ms).

(** [csLib.callGQL(reqData)] for the [Logs] query, read at [.logs]. *)
Definition queryLogs : Async (list LogEntry) :=
  fun tr =>
    match logsReply env (logQueries tr) with
    | Resolves logs => (Fulfilled logs, tr ++ [QueryLogs])
    | Rejects reason => (Rejected (ErrGQL reason), tr ++ [QueryLogs])
    end.

(** [runPluginTask(pluginId, taskName, args)]: the [RunPluginTask]
    mutation through [csLib.callGQL]. *)
Definition runPluginTask (pluginId taskName : jsstring)
                         (args : list (jsstring * jsstring)) : Async unit :=
  fun tr =>
    match runTaskReply env (submissions tr) with
    | Resolves _ =>
        (Fulfilled tt, tr ++ [RunPluginTask pluginId taskName args])
    | Rejects reason =>
        (Rejected (ErrGQL reason),
         tr ++ [RunPluginTask pluginId taskName args])
    end.

(* ---------------------------------------------------------------- *)
(** ** [pollLogsForMessage] *)

(** [logTime > reqTime && log.message.startsWith(prefix)]; a [NaN]
    time compares false. *)
Definition qualifies (prefix : jsstring) (reqTime : Z) (log : LogEntry)
  : bool :=
  match time log with
  | Some logTime => (reqTime <? logTime)%Z
  | None => false
  end
  && JsString.startsWith (message log) prefix.

(** [log.message.replace(prefix, '').trim()] *)
Definition returnedBody (prefix : jsstring) (log : LogEntry) : jsstring :=
  JsString.trim (JsString.replace_with_empty (message log) prefix).

(** The [for (const log of logs.logs)] loop: the value returned from
    inside it, [None] when the loop runs to its end. *)
Fixpoint scanLogs (prefix : jsstring) (reqTime : Z) (logs : list LogEntry)
  : option jsstring :=
  match logs with
  | [] => None
  | log :: rest =>
      if qualifies prefix reqTime log then Some (returnedBody prefix log)
      else scanLogs prefix reqTime rest
  end.

(** [`Poll logs failed for message: ${prefix}`], as thrown. *)
Definition pollTimeout (prefix : jsstring) : Err :=
  ErrThrown (lit "Poll logs failed for message: " ++ prefix).

(** [2 ** retries * 100] *)
Definition backoffDelay (retries : Z) : Z := (2 ^ retries * 100)%Z.

(** The [while (true)] loop, entered with the current [retries]. *)
Fixpoint pollLoop (fuel : nat) (prefix : jsstring) (reqTime : Z)
                  (retries : Z) : Async jsstring :=
  match fuel with
  | O => outOfFuel
  | S fuel' =>
      let delay := backoffDelay retries in
      do _ <- sleep delay ;;
      let retries := (retries + 1)%Z in
      do logs <- queryLogs ;;
      match scanLogs prefix reqTime logs with
      | Some body => ret body
      | None =>
          if (5 <=? retries)%Z then throw (pollTimeout prefix)
          else pollLoop fuel' prefix reqTime retries
      end
  end.

(** [async function pollLogsForMessage(prefix)].  The function declares
    one parameter; whatever else a caller passes ([surplus]) is never
    read.  Five rounds of the loop are always enough
    (see [pollLoop_fuel]). *)
Definition pollLogsForMessage (prefix : jsstring) (surplus : list JsArg)
  : Async jsstring :=
  do reqTime <- dateNow ;;
  do _ <- sleep 500 ;;
  pollLoop 5 prefix reqTime 0.

(* ---------------------------------------------------------------- *)
(** ** [pollLogsWithRetries] *)

(** [JSON.parse(result.trim())] *)
Definition parseResult (result : jsstring) : option JValue :=
  Json.parse (JsString.trim result).

(** The value of [parsedResult && parsedResult.url]. *)
Definition parsedAndUrl (parsedResult : JValue) : option JValue :=
  if truthy parsedResult then getUrl parsedResult else Some parsedResult.

Definition noImageError (tagName : jsstring) : Err :=
  ErrError (lit "No image generated for: " ++ tagName).

(** [tryPollLogs], with the captured counter [attempts] passed along.
    What is thrown inside the [.then] callback rejects the promise
    [.then] returned, so it reaches the same [.catch] callback as a
    rejection of [pollLogsForMessage] does: the SyntaxError of
    [JSON.parse], and the TypeError of the template literal that is
    logged before [resolve], when the [url] cannot be converted to a
    string. *)
Fixpoint tryPollLogs (fuel : nat) (prefix : jsstring) (reqTime : Z)
                     (tagName : jsstring) (maxRetries : Z) (attempts : Z)
  : Async (option JValue) :=
  match fuel with
  | O => outOfFuel
  | S fuel' =>
      fun tr =>
        let onCatch (error : Err) (tr1 : Trace) :=
          let attempts := (attempts + 1)%Z in
          let tr2 := tr1 ++ [ConsoleWarnRetry attempts tagName] in
          if (maxRetries <=? attempts)%Z then (Rejected error, tr2)
          else tryPollLogs fuel' prefix reqTime tagName maxRetries
                           attempts tr2 in
        match pollLogsForMessage prefix
                [ArgString (lit "Info"); ArgNumber reqTime] tr with
        | (Fulfilled result, tr1) =>
            match parseResult result with
            | None => onCatch ErrSyntax tr1
            | Some parsedResult =>
                if truthyOpt (parsedAndUrl parsedResult) then
                  let url := getUrl parsedResult in
                  if stringifiesOpt url then
                    (Fulfilled url, tr1 ++ [ConsoleLogUrl tagName url])
                  else onCatch ErrType tr1
                else (Rejected (noImageError tagName), tr1)
            end
        | (Rejected error, tr1) => onCatch error tr1
        | (Unsettled, tr1) => (Unsettled, tr1)
        | (OutOfFuel, tr1) => (OutOfFuel, tr1)
        end
  end.

(** [pollLogsWithRetries(prefix, reqTime, tagName, maxRetries)].
    [maxRetries] is a whole number: the function is local to the plugin
    and its one call passes 5, which is also the default.
    [tryPollLogs] runs once and then again while
    [attempts < maxRetries] (see [tryPollLogs_fuel]). *)
Definition pollLogsWithRetries (prefix : jsstring) (reqTime : Z)
                               (tagName : jsstring) (maxRetries : Z)
  : Async (option JValue) :=
  tryPollLogs (Z.to_nat (Z.max 1 maxRetries)) prefix reqTime tagName
              maxRetries 0.

(* ---------------------------------------------------------------- *)
(** ** [fetchTagIcon] *)

Definition PLUGIN_ID : jsstring := lit "stash-plugin-recraft-icons".

Definition task : jsstring := lit "Recraft Tag Icon".
Definition operation : jsstring := lit "recraftTagIcon".

(** [`[Plugin / Recraft Tag Icons] ${operation} =`] *)
Definition prefixOf (operation : jsstring) : jsstring :=
  lit "[Plugin / Recraft Tag Icons] " ++ operation ++ lit " =".

(** [fetchTagIcon(params, tagName, Toast)]; [params] is not read.

    The executor of the returned promise calls [runPluginTask] and
    hangs the polling on it with a one-argument [.then].  When the
    submission is rejected that callback does not run, the promise
    [.then] returned is rejected with nobody listening, and neither
    [resolve] nor [reject] of the outer promise is ever called: the
    [try]/[catch] around the call only sees what is thrown before
    [runPluginTask] returns its promise, and an [async] function
    throws nothing there.  The URL logged on success has been put into
    a template literal once already, by [tryPollLogs], so doing it
    again cannot throw. *)
Definition fetchTagIcon (tagName : jsstring) : Async (option JValue) :=
  let prefix := prefixOf operation in
  do reqTime <- dateNow ;;
  let payload := [(lit "name", operation); (lit "tagName", tagName)] in
  fun tr0 =>
    match runPluginTask PLUGIN_ID task payload tr0 with
    | (Fulfilled _, tr1) =>
        match pollLogsWithRetries prefix reqTime tagName 5 tr1 with
        | (Fulfilled imageUrl, tr2) =>
            (Fulfilled imageUrl, tr2 ++ [ConsoleLogUrl tagName imageUrl])
        | (Rejected error, tr2) =>
            (Rejected error,
             tr2 ++ [ToastError tagName; ConsoleErrorNoImage tagName])
        | (Unsettled, tr2) => (Unsettled, tr2)
        | (OutOfFuel, tr2) => (OutOfFuel, tr2)
        end
    | (Rejected _, tr1) => (Unsettled, tr1)
    | (Unsettled, tr1) => (Unsettled, tr1)
    | (OutOfFuel, tr1) => (OutOfFuel, tr1)
    end.

End Program.

(* ================================================================== *)
(** * Notions used in the statements *)
(* ================================================================== *)

(** The events of [k] consecutive rounds of the polling loop, the first
    of them entered with [retries]: a timer, then a query, each round. *)
Fixpoint attemptsTrace (retries : Z) (k : nat) : Trace :=
  match k with
  | O => []
  | S k' =>
      SetTimeout (backoffDelay retries) :: QueryLogs
        :: attemptsTrace (retries + 1) k'
  end.

(** The [k]-th [Logs] query answers with a snapshot in which no entry is
    both newer than [T] and prefixed by [prefix]. *)
Definition missAt (env : Env) (prefix : jsstring) (T : Z) (k : nat) : Prop :=
  exists logs,
    logsReply env k = Resolves logs /\ scanLogs prefix T logs = None.

(** A snapshot with the [level] of every entry blanked. *)
Definition eraseLevel (log : LogEntry) : LogEntry :=
  mkLog (time log) [] (message log).

(** Two answers of the log endpoint that differ at most in the [level]
    fields of their entries. *)
Definition sameUpToLevel (r1 r2 : Reply (list LogEntry)) : Prop :=
  match r1, r2 with
  | Resolves l1, Resolves l2 => map eraseLevel l1 = map eraseLevel l2
  | Rejects a, Rejects b => a = b
  | _, _ => False
  end.

(** [env] with every entry dated at or before [T] (or undated) removed
    from every snapshot. *)
Definition isNewer (T : Z) (log : LogEntry) : bool :=
  match time log with
  | Some t => (T <? t)%Z
  | None => false
  end.

Definition withoutStale (T : Z) (env : Env) : Env :=
  mkEnv (clock env) (runTaskReply env)
        (fun k =>
           match logsReply env k with
           | Resolves logs => Resolves (filter (isNewer T) logs)
           | Rejects reason => Rejects reason
           end).

(** After every announced retry that is followed by a log query, the
    task is submitted again. *)
Definition resubmitsOnRetry (tr : Trace) : Prop :=
  forall pre attempts tagName post,
    tr = pre ++ ConsoleWarnRetry attempts tagName :: post ->
    existsb isQueryLogs post = true ->
    existsb isRunPluginTask post = true.

Definition sumZ (l : list Z) : Z := fold_right Z.add 0%Z l.

(** A snapshot that lists its dated entries oldest first. *)
Definition notAfter (a b : LogEntry) : Prop :=
  forall ta tb, time a = Some ta -> time b = Some tb -> (ta <= tb)%Z.

Definition listsOldestFirst (logs : list LogEntry) : Prop :=
  StronglySorted notAfter logs.

(** What one answer of the log endpoint comes to for the loop: the value
    the scan returns, or the rejection. *)
Definition scanReply (prefix : jsstring) (T : Z) (r : Reply (list LogEntry))
  : Reply (option jsstring) :=
  match r with
  | Resolves logs => Resolves (scanLogs prefix T logs)
  | Rejects reason => Rejects reason
  end.

(* ================================================================== *)
(** * Scenarios *)
(* ================================================================== *)

Module Scenario.

#[local] Open Scope Z_scope.

Definition quote : jsstring := [34%N].

(** The text [{"url":"<url>"}]. *)
Definition urlBody (url : jsstring) : jsstring :=
  lit "{" ++ quote ++ lit "url" ++ quote ++ lit ":"
    ++ quote ++ url ++ quote ++ lit "}".

Definition iconPrefix : jsstring := prefixOf operation.

(** A log line of the remote task announcing [url]. *)
Definition iconLine (t : Z) (url : jsstring) : LogEntry :=
  mkLog (Some t) (lit "Info") (iconPrefix ++ lit " " ++ urlBody url).

Definition forest : jsstring := lit "Forest".

(** [fetchTagIcon] is entered at 1000 ms; the submission comes back
    after 50 ms; a poll that runs all its rounds takes 3600 ms of
    timers and some more for its queries. *)
Definition wallClock (k : nat) : Z :=
  match k with
  | O => 1000
  | S k' => 1050 + 3700 * Z.of_nat k'
  end.

Definition accepted (k : nat) : Reply unit := Resolves tt.

(** The task runner turns the submission down. *)
Definition rejectedSubmission : Env :=
  mkEnv wallClock (fun _ => Rejects (lit "Failed to fetch"))
        (fun _ => Resolves []).

(** The task is quick: its line is in the log at 1020 ms, after the
    submission was stamped (1000 ms) and before polling starts
    (1050 ms). *)
Definition earlyLine : LogEntry := iconLine 1020 (lit "https://img/1.svg").

Definition quickTask : Env :=
  mkEnv wallClock accepted (fun _ => Resolves [earlyLine]).

(** The task is slow: nothing during the first poll, its line (dated
    5000 ms) from the sixth query on. *)
Definition slowTask : Env :=
  mkEnv wallClock accepted
        (fun k => if (k <? 5)%nat then Resolves []
                  else Resolves [iconLine 5000 (lit "https://img/1.svg")]).

(** The task first logs an empty record, and a proper one later. *)
Definition emptyRecord : LogEntry :=
  mkLog (Some 1500) (lit "Info") (iconPrefix ++ lit " {}").

Definition emptyThenProper : Env :=
  mkEnv wallClock accepted
        (fun k => if (k <? 1)%nat then Resolves [emptyRecord]
                  else Resolves [emptyRecord;
                                 iconLine 5000 (lit "https://img/1.svg")]).

(** The task first logs something that is not JSON. *)
Definition garbled : LogEntry :=
  mkLog (Some 1500) (lit "Info") (iconPrefix ++ lit " oops").

Definition garbledThenProper : Env :=
  mkEnv wallClock accepted
        (fun k => if (k <? 1)%nat then Resolves [garbled]
                  else Resolves [garbled;
                                 iconLine 5000 (lit "https://img/1.svg")]).

(** Two lines qualify, the newer one listed first. *)
Definition newerLine : LogEntry := iconLine 3000 (lit "https://img/b.svg").
Definition olderLine : LogEntry := iconLine 2000 (lit "https://img/a.svg").

Definition newestFirst : Env :=
  mkEnv wallClock accepted (fun _ => Resolves [newerLine; olderLine]).

Definition oldestFirst : Env :=
  mkEnv wallClock accepted (fun _ => Resolves [olderLine; newerLine]).

(** [newestFirst] with other levels. *)
Definition newestFirstAsErrors : Env :=
  mkEnv wallClock accepted
        (fun _ => Resolves
                    [mkLog (time newerLine) (lit "Error") (message newerLine);
                     mkLog (time olderLine) (lit "Debug")
                           (message olderLine)]).

(** The log never shows anything. *)
Definition silent : Env :=
  mkEnv wallClock accepted (fun _ => Resolves []).



End Scenario.

(* ================================================================== *)
(** * The rest of the plugin: the tag id in the URL *)
(* ================================================================== *)

(** The longest run of decimal digits [s] starts with: what [\d+] takes. *)
Fixpoint takeDigits (s : jsstring) : jsstring :=
  match s with
  | c :: s' => if Json.isDigit c then c :: takeDigits s' else []
  | [] => []
  end.

(** The match of [/(tags)\/(\d+)/] that starts right at the head of
    [s], as its second group. *)
Definition tagsAtHead (s : jsstring) : option jsstring :=
  if JsString.startsWith s (lit "tags/") then
    match takeDigits (skipn 5 s) with
    | [] => None
    | d :: ds => Some (d :: ds)
    end
  else None.

(** [getTagId()], as a function of [document.URL]:
    [url.match(/(tags)\/(\d+)/)[2]], the second group of the leftmost
    match.  [None] stands for the TypeError of indexing [null], the value
    of [match] when nothing matches. *)
Fixpoint getTagId (url : jsstring) : option jsstring :=
  match tagsAtHead url with
  | Some id => Some id
  | None =>
      match url with
      | [] => None
      | _ :: rest => getTagId rest
      end
  end.

(* ================================================================== *)
(** * The rest of the plugin: values, replies and requests *)
(* ================================================================== *)

(** A value as the code holds it; [None] is [undefined]. *)
Abbreviation JsVal := (option JValue).

(** [v.key], for a [v] that is neither [undefined] nor [null] and a
    [key] that no built-in prototype defines: the member of an object,
    [undefined] on anything else. *)
Definition getProp (key : jsstring) (v : JValue) : JsVal :=
  match v with
  | JObject members => lookupMember key members
  | _ => None
  end.

(** [v?.key] *)
Definition optProp (key : jsstring) (v : JsVal) : JsVal :=
  match v with
  | None => None
  | Some JNull => None
  | Some v' => getProp key v'
  end.

(** What the code of this part throws or rejects with. *)
Inductive JsError : Type :=
| TypeError
| NewError (text : jsstring)
| GqlRejected (reason : jsstring).

(** The GraphQL requests of this part, with their variables. *)
Inductive Request : Type :=
| ConfigurationQuery
| ConfigurePlugin (plugin_id : jsstring) (input : list (jsstring * JsVal))
| TagUpdate (id image : JsVal).

(** What this part does to the outside. *)
Inductive Effect : Type :=
| Sent (r : Request)
| ConsoleLogUpdating (tagId imageUrl : JsVal)
| ToastSuccessGenerated (tagName : jsstring)
| ConsoleErrorFailedUpdate (result : JsVal).

Definition isSent (ev : Effect) : bool :=
  match ev with Sent _ => true | _ => false end.

Definition requestsSent (log : list Effect) : nat :=
  length (filter isSent log).

(** How a call of this part ends. *)
Inductive Outcome (A : Type) : Type :=
| Returned (a : A)
| Threw (e : JsError).

Arguments Returned {A} a.
Arguments Threw {A} e.

Definition Io (A : Type) : Type := list Effect -> Outcome A * list Effect.

Section Helpers.

(** The server, through the answer to the [k]-th request sent. *)
Variable answers : nat -> Reply JsVal.

(** [await csLib.callGQL(reqData)] *)
Definition callGQL (r : Request) : Io JsVal :=
  fun log =>
    match answers (requestsSent log) with
    | Resolves data => (Returned data, log ++ [Sent r])
    | Rejects reason => (Threw (GqlRejected reason), log ++ [Sent r])
    end.

(** [getPluginConfigs()] *)
Definition getPluginConfigs : Io JsVal := callGQL ConfigurationQuery.

(** [getPluginConfig(pluginId)]:
    [data.configuration.plugins[pluginId]]; reading a property of
    [undefined] or [null] is a TypeError. *)
Definition getPluginConfig (pluginId : jsstring) : Io JsVal :=
  fun log =>
    match getPluginConfigs log with
    | (Returned data, log') =>
        match data with
        | None | Some JNull => (Threw TypeError, log')
        | Some d =>
            match getProp (lit "configuration") d with
            | None | Some JNull => (Threw TypeError, log')
            | Some c =>
                match getProp (lit "plugins") c with
                | None | Some JNull => (Threw TypeError, log')
                | Some p => (Returned (getProp pluginId p), log')
                end
            end
        end
    | (Threw e, log') => (Threw e, log')
    end.

(** [updatePluginConfig(pluginId, config)] *)
Definition updatePluginConfig (pluginId : jsstring)
                              (config : list (jsstring * JsVal)) : Io JsVal :=
  callGQL (ConfigurePlugin pluginId config).

Definition DEFAULT_RECRAFT_API_URL : JValue :=
  JString (lit "https://external.api.recraft.ai/v1/images/generations").
Definition DEFAULT_RECRAFT_SIZE : JValue := JString (lit "1024").
Definition DEFAULT_RECRAFT_FORMAT : JValue := JString (lit "svg").
Definition DEFAULT_RECRAFT_STYLE : JValue := JString (lit "icon").
Definition DEFAULT_RECRAFT_SUB_STYLE : JValue :=
  JString (lit "doodle_offset_fill").

(** A destructured property with a default: the default stands in for
    [undefined] only. *)
Definition orDefault (v : JsVal) (default : JValue) : JsVal :=
  match v with
  | None => Some default
  | Some v' => Some v'
  end.

(** [!v] *)
Definition falsy (v : JsVal) : bool := negb (truthyOpt v).

(** [result.key] where [result] is a promise: a Promise object has no
    property of the names the code reads. *)
Definition promiseProp (key : jsstring) : JsVal := None.

(** The object [setupPluginDefaults] passes to [updatePluginConfig]. *)
Definition defaultedConfig (params : JValue) : list (jsstring * JsVal) :=
  [(lit "recraftApiKey", getProp (lit "recraftApiKey") params);
   (lit "recraftApiUrl",
    orDefault (getProp (lit "recraftApiUrl") params) DEFAULT_RECRAFT_API_URL);
   (lit "recraftTagIconSize",
    orDefault (getProp (lit "recraftTagIconSize") params)
              DEFAULT_RECRAFT_SIZE);
   (lit "recraftTagIconFormat",
    orDefault (getProp (lit "recraftTagIconFormat") params)
              DEFAULT_RECRAFT_FORMAT);
   (lit "recraftTagIconStyle",
    orDefault (getProp (lit "recraftTagIconStyle") params)
              DEFAULT_RECRAFT_STYLE);
   (lit "recraftTagIconSubStyle",
    orDefault (getProp (lit "recraftTagIconSubStyle") params)
              DEFAULT_RECRAFT_SUB_STYLE);
   (lit "recraftTagIconStyleId",
    getProp (lit "recraftTagIconStyleId") params)].

(** [setupPluginDefaults(params)].

    Destructuring [undefined] or [null] is a TypeError.  Inside the
    executor [updatePluginConfig] is called and not awaited: the request
    goes out, and [result] is the promise the [async] function returned,
    a truthy object without a [data] property. *)
Definition setupPluginDefaults (params : JsVal) : Io JValue :=
  match params with
  | None | Some JNull => fun log => (Threw TypeError, log)
  | Some p =>
      if falsy (getProp (lit "recraftApiUrl") p)
         || falsy (getProp (lit "recraftTagIconSize") p)
         || falsy (getProp (lit "recraftTagIconFormat") p)
      then
        fun log =>
          let log' := snd (updatePluginConfig PLUGIN_ID (defaultedConfig p)
                             log) in
          match optProp (lit "configurePlugin")
                  (promiseProp (lit "data")) with
          | Some configurePlugin =>
              if truthy configurePlugin then (Returned configurePlugin, log')
              else (Threw (NewError
                             (lit "Failed to update plugin configuration")),
                    log')
          | None =>
              (Threw (NewError (lit "Failed to update plugin configuration")),
               log')
          end
      else fun log => (Returned p, log)
  end.

(** The chain at the head of [initializePlugin]:
    [getPluginConfig('stash-plugin-recraft-icons').then(config =>
     setupPluginDefaults(config))]. *)
Definition loadSettings : Io JValue :=
  fun log =>
    match getPluginConfig (lit "stash-plugin-recraft-icons") log with
    | (Returned config, log') => setupPluginDefaults config log'
    | (Threw e, log') => (Threw e, log')
    end.

(** [updateTagImage({tagId, imageUrl, tagName}, Toast)], [tagName] being
    a string.  The message logged first is a template literal over
    [tagId] and [imageUrl]: when one of them cannot be converted to a
    string it throws a TypeError before anything is logged or sent.
    [result?.tagUpdate?.id] is read in two steps: without a [tagUpdate]
    that is neither [undefined] nor [null] there is no [id]. *)
Definition updateTagImage (tagId imageUrl : JsVal) (tagName : jsstring)
  : Io JValue :=
  fun log =>
    if stringifiesOpt tagId && stringifiesOpt imageUrl then
      let log0 := log ++ [ConsoleLogUpdating tagId imageUrl] in
      match callGQL (TagUpdate tagId imageUrl) log0 with
      | (Returned result, log1) =>
          let failed :=
            (Threw (NewError (lit "Failed to update tag: " ++ tagName)),
             log1 ++ [ConsoleErrorFailedUpdate result]) in
          match optProp (lit "tagUpdate") result with
          | Some tagUpdate =>
              if truthyOpt (optProp (lit "id") (Some tagUpdate)) then
                (Returned tagUpdate, log1 ++ [ToastSuccessGenerated tagName])
              else failed
          | None => failed
          end
      | (Threw e, log1) => (Threw e, log1)
      end
    else (Threw TypeError, log).

End Helpers.

(* ================================================================== *)
(** * The rest of the plugin: the button component *)
(* ================================================================== *)

(** The [data] state of [ButtonComponent]: the tag it stands for, the
    image chosen so far ([undefined] until one is) and the other
    properties it was created with, which the handlers pass along. *)
Record TagData : Type := mkTagData {
  tagId : JsVal;
  tagName : jsstring;
  dataImageUrl : JsVal;
  otherProps : list (jsstring * JsVal)
}.

(** What a handler of [ButtonComponent] logs with [console.error]. *)
Inductive HandlerError : Type :=
| ErrorFetchingIcon (e : Err)
| FailedToUpdateTagImage (e : JsError).

(** The [useState] cells of [ButtonComponent], the [src] of the image
    in the page header ([None] when the page has no such image) and the
    errors its handlers logged. *)
Record Ui : Type := mkUi {
  display : bool;
  data : TagData;
  custom : bool;
  imageUrl : JsVal;
  loading : bool;
  logoSrc : option JsVal;
  handlerErrors : list HandlerError
}.


Definition setData (d : TagData) (ui : Ui) : Ui :=
  mkUi (display ui) d (custom ui) (imageUrl ui) (loading ui) (logoSrc ui)
       (handlerErrors ui).

Definition setCustom (b : bool) (ui : Ui) : Ui :=
  mkUi (display ui) (data ui) b (imageUrl ui) (loading ui) (logoSrc ui)
       (handlerErrors ui).

Definition setImageUrl (v : JsVal) (ui : Ui) : Ui :=
  mkUi (display ui) (data ui) (custom ui) v (loading ui) (logoSrc ui)
       (handlerErrors ui).

Definition setLoading (b : bool) (ui : Ui) : Ui :=
  mkUi (display ui) (data ui) (custom ui) (imageUrl ui) b (logoSrc ui)
       (handlerErrors ui).

Definition consoleError (e : HandlerError) (ui : Ui) : Ui :=
  mkUi (display ui) (data ui) (custom ui) (imageUrl ui) (loading ui)
       (logoSrc ui) (handlerErrors ui ++ [e]).

(** [prev => ({ ...prev, imageUrl: url })] *)
Definition withImageUrl (url : JsVal) (prev : TagData) : TagData :=
  mkTagData (tagId prev) (tagName prev) url (otherProps prev).



(** [customPrompt || data.tagName] *)
Definition iconQueryOf (customPrompt : option jsstring) (d : TagData)
  : jsstring :=
  match customPrompt with
  | Some (c :: s) => c :: s
  | _ => tagName d
  end.

(** [performTagFetch(customPrompt)]; [None] is the default, [null]. *)
Definition performTagFetch (env : Env) (customPrompt : option jsstring)
                           (ui : Ui) (tr : Trace)
  : Settled unit * Ui * Trace :=
  let ui1 := setLoading true (setCustom false ui) in
  let iconQuery := iconQueryOf customPrompt (data ui) in
  match fetchTagIcon env iconQuery tr with
  | (Fulfilled url, tr') =>
      (Fulfilled tt,
       setLoading false
         (setData (withImageUrl url (data ui1)) (setImageUrl url ui1)),
       tr')
  | (Rejected e, tr') =>
      (Fulfilled tt, setLoading false (consoleError (ErrorFetchingIcon e) ui1),
       tr')
  | (Unsettled, tr') => (Unsettled, ui1, tr')
  | (OutOfFuel, tr') => (OutOfFuel, ui1, tr')
  end.


(** What the body of [CustomModal] shows. *)
Inductive ModalBody : Type :=
| CustomPrompt
| LoadingIndicator
| ImagePreview (url : JsVal)
| EmptyBody.

Definition modalBody (ui : Ui) : ModalBody :=
  if custom ui then CustomPrompt
  else if loading ui then LoadingIndicator
  else if truthyOpt (imageUrl ui) then ImagePreview (imageUrl ui)
  else EmptyBody.

(* ================================================================== *)
(** * The helper library: regular expressions *)
(* ================================================================== *)

(** [Array.from(new Set(chars))]: every code unit once, in the order of
    first appearance. *)
Fixpoint distinctInOrder (seen s : jsstring) : jsstring :=
  match s with
  | [] => []
  | c :: s' =>
      if existsb (N.eqb c) seen then distinctInOrder seen s'
      else c :: distinctInOrder (c :: seen) s'
  end.

(** [chars.join()]: the elements with a comma between them. *)
Fixpoint joinWithComma (chars : jsstring) : jsstring :=
  match chars with
  | [] => []
  | [c] => [c]
  | c :: rest => c :: 44%N :: joinWithComma rest
  end.

(** The flags [new RegExp] lets through: code units out of [dgimsuvy],
    none of them twice, and not [u] together with [v]. *)
Definition isFlag (c : N) : bool :=
  existsb (N.eqb c) (lit "dgimsuvy").

Fixpoint noRepeat (s : jsstring) : bool :=
  match s with
  | [] => true
  | c :: s' => negb (existsb (N.eqb c) s') && noRepeat s'
  end.

Definition flagsValid (flags : jsstring) : bool :=
  forallb isFlag flags && noRepeat flags
  && negb (existsb (N.eqb 117) flags && existsb (N.eqb 118) flags).

(** What the code reads of a regular expression. *)
Record RegExp : Type := mkRegExp {
  source : jsstring;
  flags : jsstring
}.

(** The end of a call [new RegExp(pattern, flags)]. *)
Inductive Construction : Type :=
| Constructed (pattern flags : jsstring)
| SyntaxError.

Section Regexps.

(** Whether a pattern is well formed under given flags. *)
Variable patternValid : jsstring -> jsstring -> bool.

(** [new RegExp(pattern, flags)] *)
Definition newRegExp (pattern flags : jsstring) : Construction :=
  if flagsValid flags && patternValid pattern flags
  then Constructed pattern flags
  else SyntaxError.

(** [concatRegexp(reg, exp)] *)
Definition concatRegexp (reg exp : RegExp) : Construction :=
  let flags := flags reg ++ flags exp in
  let flags := joinWithComma (distinctInOrder [] flags) in
  newRegExp (source reg ++ source exp) flags.

End Regexps.

(* ================================================================== *)
(** * The helper library: the DOM *)
(* ================================================================== *)

(** An element with its chain of parents: the topmost element has no
    [parentElement]. *)
Inductive Element : Type :=
| topElement (id : nat)
| childElement (id : nat) (parent : Element).

(** [el.parentElement]; [None] is [null]. *)
Definition parentElement (el : Element) : option Element :=
  match el with
  | topElement _ => None
  | childElement _ p => Some p
  end.

(** An element, its parent, the parent of that, and so on. *)
Fixpoint ancestors (el : Element) : list Element :=
  el :: match el with
        | topElement _ => []
        | childElement _ p => ancestors p
        end.

Section Ancestors.

(** [el.matches(selector)] *)
Variable matches : Element -> jsstring -> bool.

(** [stopSelector && el.matches(stopSelector)]; [None] is [undefined]. *)
Definition stopsAt (stopSelector : option jsstring) (el : Element) : bool :=
  match stopSelector with
  | Some (c :: s) => matches el (c :: s)
  | _ => false
  end.

(** The [while (el)] loop of [getClosestAncestor], entered at an
    element. *)
Fixpoint closestFrom (selector : jsstring) (stopSelector : option jsstring)
                     (el : Element) : option Element :=
  if matches el selector then Some el
  else if stopsAt stopSelector el then None
  else match el with
       | childElement _ p => closestFrom selector stopSelector p
       | topElement _ => None
       end.

(** [getClosestAncestor(el, selector, stopSelector)] *)
Definition getClosestAncestor (el : option Element) (selector : jsstring)
                              (stopSelector : option jsstring)
  : option Element :=
  match el with
  | Some e => closestFrom selector stopSelector e
  | None => None
  end.

End Ancestors.

(** A child node: which node it is, whether it is an element, and for
    an element its [innerHTML]. *)
Record ChildNode : Type := mkChild {
  nodeKey : nat;
  isElementNode : bool;
  innerHTML : jsstring
}.

(** [a < b] on strings: code unit by code unit, a proper prefix first. *)
Fixpoint stringLt (a b : jsstring) : bool :=
  match a, b with
  | _, [] => false
  | [], _ :: _ => true
  | x :: a', y :: b' =>
      if (x <? y)%N then true
      else if (y <? x)%N then false
      else stringLt a' b'
  end.

(** The comparator of [sortElementChildren]. *)
Definition compareInnerHTML (a b : ChildNode) : Z :=
  if JsString.eqb (innerHTML a) (innerHTML b) then 0%Z
  else if stringLt (innerHTML b) (innerHTML a) then 1%Z
  else (-1)%Z.

(** [arr.sort(compare)] for a comparator that orders consistently: the
    stable sort, here by insertion. *)
Fixpoint insertSorted (compare : ChildNode -> ChildNode -> Z) (x : ChildNode)
                      (l : list ChildNode) : list ChildNode :=
  match l with
  | [] => [x]
  | y :: l' =>
      if (compare x y <=? 0)%Z then x :: y :: l'
      else y :: insertSorted compare x l'
  end.

Fixpoint sortWith (compare : ChildNode -> ChildNode -> Z)
                  (l : list ChildNode) : list ChildNode :=
  match l with
  | [] => []
  | x :: l' => insertSorted compare x (sortWith compare l')
  end.

(** [node.appendChild(x)] on the children of [node]: a child that is
    already there moves to the end. *)
Definition appendChild (children : list ChildNode) (x : ChildNode)
  : list ChildNode :=
  filter (fun n => negb (nodeKey n =? nodeKey x)) children ++ [x].

(** [sortElementChildren(node)], on the children of [node].  The names
    [for ... in] visits besides the indices ([length], [item], ...) hold
    nothing with a [nodeType]. *)
Definition sortElementChildren (children : list ChildNode)
  : list ChildNode :=
  let itemsArr := filter isElementNode children in
  let itemsArr := sortWith compareInnerHTML itemsArr in
  fold_left appendChild itemsArr children.

(** What [waitForElementId] does, in order. *)
Inductive WaitEvent : Type :=
| SetTimer (ms : Z)
| GetElementById
| CallBack (el : Element).

(** [waitForElementId(elementId, callBack, time)], [None] being an
    omitted [time].  [found k] is what the [k]-th
    [document.getElementById(elementId)] of the page gives; [fuel]
    bounds the number of timers that fire.  The result tells whether the
    callback was called and lists what was done. *)
Fixpoint waitForElementId (fuel : nat) (found : nat -> option Element)
                          (k : nat) (time : option Z)
  : bool * list WaitEvent :=
  let time := match time with Some t => t | None => 100%Z end in
  match fuel with
  | O => (false, [SetTimer time])
  | S fuel' =>
      match found k with
      | Some el => (true, [SetTimer time; GetElementById; CallBack el])
      | None =>
          let '(called, evs) := waitForElementId fuel' found (S k) None in
          (called, SetTimer time :: GetElementById :: evs)
      end
  end.

(* ================================================================== *)
(** * Scenarios for the rest of the plugin *)
(* ================================================================== *)

Module Example.

#[local] Open Scope Z_scope.

(** A stored configuration with everything [setupPluginDefaults] asks
    for. *)
Definition fullConfig : JValue :=
  JObject [(lit "recraftApiKey", JString (lit "key"));
           (lit "recraftApiUrl", JString (lit "https://recraft/v1"));
           (lit "recraftTagIconSize", JString (lit "512"));
           (lit "recraftTagIconFormat", JString (lit "svg"))].

(** A stored configuration with the key only, and an empty URL. *)
Definition keyOnlyConfig : JValue :=
  JObject [(lit "recraftApiKey", JString (lit "key"));
           (lit "recraftApiUrl", JString [])].

(** The answer to the [Configuration] query that holds [plugins]. *)
Definition configurationOf (plugins : JValue) : JsVal :=
  Some (JObject [(lit "configuration",
                  JObject [(lit "plugins", plugins)])]).

Definition serverWith (plugins : JValue) (k : nat) : Reply JsVal :=
  Resolves (configurationOf plugins).

Definition configuredPlugins : JValue :=
  JObject [(PLUGIN_ID, fullConfig)].

(** No plugin has stored anything yet. *)
Definition noPlugins : JValue := JObject [].

(** The tag of the page. *)
Definition forestData : TagData :=
  mkTagData (Some (JString (lit "42"))) (lit "Forest")
            (Some (JString (lit "https://img/1.svg"))) [].

(** The modal as it stands with a preview shown. *)
Definition previewShown : Ui :=
  mkUi true forestData false (Some (JString (lit "https://img/1.svg")))
       false (Some (Some (JString (lit "/tag/42/image")))) [].

(** The modal as it stands when the button was just pressed. *)
Definition justOpened : Ui :=
  mkUi true (mkTagData (Some (JString (lit "42"))) (lit "Forest") None [])
       false (Some (JString [])) false
       (Some (Some (JString (lit "/tag/42/image")))) [].

(** The server updates the tag. *)
Definition updatedTag : JValue :=
  JObject [(lit "id", JString (lit "42"));
           (lit "name", JString (lit "Forest"));
           (lit "image_path", JString (lit "/tag/42/image?t=2"))].

Definition tagUpdated (k : nat) : Reply JsVal :=
  Resolves (Some (JObject [(lit "tagUpdate", updatedTag)])).

(** The server answers without a tag. *)
Definition tagNotUpdated (k : nat) : Reply JsVal :=
  Resolves (Some (JObject [(lit "tagUpdate", JNull)])).

(** Regular expressions with flags. *)
Definition originRegExp : RegExp := mkRegExp (lit "http:\/\/localhost") [].
Definition globalIgnoreCase : RegExp := mkRegExp (lit "\/tags") (lit "gi").
Definition ignoreCase : RegExp := mkRegExp (lit "\/tags") (lit "i").

Definition anyPattern (pattern flags : jsstring) : bool := true.

(** A button inside a toolbar inside the page. *)
Definition page : Element := topElement 0.
Definition toolbar : Element := childElement 1 page.
Definition button : Element := childElement 2 toolbar.

(** Elements match the selector that spells their number. *)
Definition matchesNumber (el : Element) (selector : jsstring) : bool :=
  match el with
  | topElement n | childElement n _ =>
      JsString.eqb selector [N.of_nat (48 + n)]
  end.

(** Three children: an element, a text node, an element. *)
Definition mixedChildren : list ChildNode :=
  [mkChild 0 true (lit "pear"); mkChild 1 false [];
   mkChild 2 true (lit "apple")].

(** The element shows up at the third look. *)
Definition thirdLook (k : nat) : option Element :=
  match k with
  | 0%nat | 1%nat => None
  | _ => Some toolbar
  end.

End Example.

(* ================================================================== *)
(** * Notions for the end-to-end statements *)
(* ================================================================== *)

(** No snapshot of the log ever holds a message that starts with
    [prefix]. *)
Definition neverLogged (env : Env) (prefix : jsstring) : Prop :=
  forall k,
    exists logs,
      logsReply env k = Resolves logs /\
      forallb (fun e => negb (JsString.startsWith (message e) prefix)) logs
      = true.

(** [b] does not come before [a] when both are compared by their HTML. *)
Definition notAbove (a b : ChildNode) : Prop :=
  stringLt (innerHTML b) (innerHTML a) = false.

(** The children of a node that are not elements, in document order. *)
Definition nonElements (children : list ChildNode) : list ChildNode :=
  filter (fun n => negb (isElementNode n)) children.

(** Whether [n] is, by identity, one of the nodes [ks]. *)
Definition keyIn (ks : list ChildNode) (n : ChildNode) : bool :=
  existsb (fun m => nodeKey n =? nodeKey m) ks.

(* ================================================================== *)
(** * Strings: facts *)
(* ================================================================== *)


Lemma startsWith_split (s p : jsstring) :
  JsString.startsWith s p = true -> s = p ++ skipn (length p) s.
Proof.
  revert s. induction p as [|x p IH]; intros s; [reflexivity|].
  destruct s as [|c s]; [discriminate|]. simpl.
  intros H. apply andb_true_iff in H as [Hc Hp].
  apply N.eqb_eq in Hc. subst c. f_equal. now apply IH.
Qed.












(* ================================================================== *)
(** * [JSON.parse]: the fuel is enough *)
(* ================================================================== *)

Lemma skipWs_length (s : jsstring) : length (Json.skipWs s) <= length s.
Proof.
  induction s as [|c s IH]; simpl; [lia|].
  destruct (Json.isWs c); simpl; lia.
Qed.

Lemma skipWs_cons (s : jsstring) (c : N) (t : jsstring) :
  Json.skipWs s = c :: t -> length t < length s.
Proof.
  intros H. pose proof (skipWs_length s) as L. rewrite H in L. simpl in L. lia.
Qed.

Lemma parseChars_length (n : nat) :
  forall s acc str r,
    length s <= n ->
    Json.parseChars s acc = Some (str, r) -> length r < length s.
Proof.
  induction n as [|n IH]; intros s acc str r Hn H;
    (destruct s as [|c s']; [discriminate|]); [simpl in Hn; lia|].
  cbn [Json.parseChars] in H. simpl in Hn.
  repeat match type of H with
         | context [if ?b then _ else _] => destruct b
         | context [match ?x with _ => _ end] => destruct x
         end;
    try discriminate;
    try (injection H as <- <-; simpl; lia);
    try (apply IH in H; simpl in *; lia).
Qed.

Lemma parseDigits_length (s : jsstring) :
  forall val len v n r,
    Json.parseDigits s val len = (v, n, r) ->
    length r + n = length s + len /\ len <= n.
Proof.
  induction s as [|c s IH]; intros val len v n r; simpl.
  - intros [= <- <- <-]. simpl. lia.
  - destruct (Json.isDigit c).
    + intros H. apply IH in H. lia.
    + intros [= <- <- <-]. simpl. lia.
Qed.

Lemma parseInt_length (s : jsstring) (v : N) (r : jsstring) :
  Json.parseInt s = Some (v, r) -> length r < length s.
Proof.
  unfold Json.parseInt. destruct s as [|c s']; [discriminate|].
  destruct (c =? 48)%N; [intros [= <- <-]; simpl; lia|].
  destruct (Json.isDigit c) eqn:Hc; [|discriminate].
  destruct (Json.parseDigits (c :: s') 0 0) as [[v' n] r'] eqn:E.
  intros [= <- <-]. simpl in E. rewrite Hc in E.
  apply parseDigits_length in E. simpl. lia.
Qed.

Lemma parseFrac_length (iv : N) (s : jsstring) (m : N) (fl : Z)
                       (r : jsstring) :
  Json.parseFrac iv s = Some (m, fl, r) -> length r <= length s.
Proof.
  unfold Json.parseFrac. destruct s as [|c s']; [intros [= <- <- <-]; lia|].
  destruct (c =? 46)%N; [|intros [= <- <- <-]; lia].
  destruct (Json.parseDigits s' iv 0) as [[v n] r'] eqn:E.
  apply parseDigits_length in E.
  destruct n; [discriminate|]. intros [= <- <- <-]. simpl. lia.
Qed.

Lemma parseExpDigits_length (sgn : Z) (s : jsstring) (e : Z) (r : jsstring) :
  Json.parseExpDigits sgn s = Some (e, r) -> length r <= length s.
Proof.
  unfold Json.parseExpDigits.
  destruct (Json.parseDigits s 0 0) as [[v n] r'] eqn:E.
  apply parseDigits_length in E.
  destruct n; [discriminate|]. intros [= <- <-]. lia.
Qed.

Lemma parseExp_length (s : jsstring) (e : Z) (r : jsstring) :
  Json.parseExp s = Some (e, r) -> length r <= length s.
Proof.
  unfold Json.parseExp. destruct s as [|c s']; [intros [= <- <-]; lia|].
  destruct ((c =? 101) || (c =? 69))%N; [|intros [= <- <-]; lia].
  destruct s' as [|d s'']; [discriminate|].
  destruct (d =? 43)%N; [|destruct (d =? 45)%N];
    intros H; apply parseExpDigits_length in H; simpl in *; lia.
Qed.

Lemma parseNumber_length (s : jsstring) (v : JValue) (r : jsstring) :
  Json.parseNumber s = Some (v, r) -> length r < length s.
Proof.
  unfold Json.parseNumber.
  assert (Hs : forall s1, length s1 <= length s ->
    match Json.parseInt s1 with
    | Some (iv, s2) =>
        match Json.parseFrac iv s2 with
        | Some (m, fl, s3) =>
            match Json.parseExp s3 with
            | Some (e, s4) => length s4 < length s
            | None => True
            end
        | None => True
        end
    | None => True
    end).
  { intros s1 L1. destruct (Json.parseInt s1) as [[iv s2]|] eqn:Ei; [|exact I].
    apply parseInt_length in Ei.
    destruct (Json.parseFrac iv s2) as [[[m fl] s3]|] eqn:Ef; [|exact I].
    apply parseFrac_length in Ef.
    destruct (Json.parseExp s3) as [[e s4]|] eqn:Ee; [|exact I].
    apply parseExp_length in Ee. lia. }
  destruct s as [|c s'].
  - specialize (Hs [] (le_n _)).
    destruct (Json.parseInt []) as [[iv s2]|]; [|discriminate].
    destruct (Json.parseFrac iv s2) as [[[m fl] s3]|]; [|discriminate].
    destruct (Json.parseExp s3) as [[e s4]|]; [|discriminate].
    intros [= <- <-]. exact Hs.
  - destruct (c =? 45)%N.
    + specialize (Hs s' ltac:(simpl; lia)).
      destruct (Json.parseInt s') as [[iv s2]|]; [|discriminate].
      destruct (Json.parseFrac iv s2) as [[[m fl] s3]|]; [|discriminate].
      destruct (Json.parseExp s3) as [[e s4]|]; [|discriminate].
      intros [= <- <-]. exact Hs.
    + specialize (Hs (c :: s') (le_n _)).
      destruct (Json.parseInt (c :: s')) as [[iv s2]|]; [|discriminate].
      destruct (Json.parseFrac iv s2) as [[[m fl] s3]|]; [|discriminate].
      destruct (Json.parseExp s3) as [[e s4]|]; [|discriminate].
      intros [= <- <-]. exact Hs.
Qed.

Lemma startsWith_length (s p : jsstring) :
  JsString.startsWith s p = true -> length p <= length s.
Proof.
  revert s. induction p as [|x p IH]; intros s; simpl; [lia|].
  destruct s as [|c s]; [discriminate|].
  intros H. apply andb_true_iff in H as [_ H]. apply IH in H. simpl. lia.
Qed.

Lemma parseLiteral_length (word : jsstring) (v : JValue) (s : jsstring)
                          (v' : JValue) (r : jsstring) :
  word <> [] ->
  Json.parseLiteral word v s = Some (v', r) -> length r < length s.
Proof.
  unfold Json.parseLiteral. intros Hw.
  destruct (JsString.startsWith s word) eqn:E; [|discriminate].
  apply startsWith_length in E.
  intros [= <- <-]. rewrite length_skipn.
  destruct word; [congruence|]. simpl in *. lia.
Qed.

(** A parse that succeeds with some fuel consumes input, and succeeds
    the same way with any fuel of at least twice what it consumed. *)
Lemma parse_fuel_enough (f : nat) :
  (forall s v r,
      Json.parseValue f s = Some (v, r) ->
      length r < length s /\
      forall f', 2 * (length s - length r) <= S f' ->
                 Json.parseValue f' s = Some (v, r))
  /\ (forall s acc v r,
        Json.parseElements f s acc = Some (v, r) ->
        length r < length s /\
        forall f', 2 * (length s - length r) <= S (S f') ->
                   Json.parseElements f' s acc = Some (v, r))
  /\ (forall s acc v r,
        Json.parseMembers f s acc = Some (v, r) ->
        length r < length s /\
        forall f', 2 * (length s - length r) <= S (S f') ->
                   Json.parseMembers f' s acc = Some (v, r)).
Proof.
  induction f as [|f (IHV & IHE & IHM)];
    [repeat split; discriminate|].
  split; [|split].
  - intros s v r H. cbn [Json.parseValue] in H.
    destruct (Json.skipWs s) as [|c t] eqn:Es; [discriminate|].
    pose proof (skipWs_cons _ _ _ Es) as Lt.
    destruct (c =? 123)%N eqn:E1.
    { destruct (Json.skipWs t) as [|d t'] eqn:Et; [discriminate|].
      pose proof (skipWs_cons _ _ _ Et) as Lt'.
      destruct (d =? 125)%N eqn:E2.
      - injection H as <- <-. split; [lia|].
        intros [|f'] Hf; [lia|].
        cbn [Json.parseValue]. now rewrite Es, E1, Et, E2.
      - apply IHM in H as [L K]. split; [lia|].
        intros [|f'] Hf; [lia|].
        cbn [Json.parseValue]. rewrite Es, E1, Et, E2. apply K. lia. }
    destruct (c =? 91)%N eqn:E3.
    { destruct (Json.skipWs t) as [|d t'] eqn:Et; [discriminate|].
      pose proof (skipWs_cons _ _ _ Et) as Lt'.
      destruct (d =? 93)%N eqn:E2.
      - injection H as <- <-. split; [lia|].
        intros [|f'] Hf; [lia|].
        cbn [Json.parseValue]. now rewrite Es, E1, E3, Et, E2.
      - apply IHE in H as [L K]. split; [lia|].
        intros [|f'] Hf; [lia|].
        cbn [Json.parseValue]. rewrite Es, E1, E3, Et, E2. apply K. lia. }
    assert (L : length r < length s).
    { repeat match type of H with
             | context [if ?b then _ else _] => destruct b
             end.
      - destruct (Json.parseChars t []) as [[str r']|] eqn:Ec;
          [|discriminate].
        apply (parseChars_length (length t)) in Ec; [|lia].
        injection H as <- <-. lia.
      - apply parseLiteral_length in H; [simpl in H; lia | discriminate].
      - apply parseLiteral_length in H; [simpl in H; lia | discriminate].
      - apply parseLiteral_length in H; [simpl in H; lia | discriminate].
      - apply parseNumber_length in H. simpl in H. lia. }
    split; [exact L|].
    intros [|f'] Hf; [lia|].
    cbn [Json.parseValue]. rewrite Es, E1, E3. exact H.
  - intros s acc v r H. cbn [Json.parseElements] in H.
    destruct (Json.parseValue f s) as [[v1 r1]|] eqn:Ev; [|discriminate].
    apply IHV in Ev as [L1 K1].
    destruct (Json.skipWs r1) as [|c r'] eqn:Er; [discriminate|].
    pose proof (skipWs_cons _ _ _ Er) as Lr.
    destruct (c =? 44)%N eqn:E1.
    + apply IHE in H as [L K]. split; [lia|].
      intros [|f'] Hf; [lia|].
      cbn [Json.parseElements]. rewrite K1 by lia. rewrite Er, E1.
      apply K. lia.
    + destruct (c =? 93)%N eqn:E2; [|discriminate].
      injection H as <- <-. split; [lia|].
      intros [|f'] Hf; [lia|].
      cbn [Json.parseElements]. rewrite K1 by lia. now rewrite Er, E1, E2.
  - intros s acc v r H. cbn [Json.parseMembers] in H.
    destruct (Json.skipWs s) as [|c t] eqn:Es; [discriminate|].
    pose proof (skipWs_cons _ _ _ Es) as Lt.
    destruct (c =? 34)%N eqn:E1; [|discriminate].
    destruct (Json.parseChars t []) as [[key r0]|] eqn:Ec; [|discriminate].
    pose proof (parseChars_length (length t) _ _ _ _ (le_n _) Ec) as Lc.
    destruct (Json.skipWs r0) as [|d r'] eqn:Er0; [discriminate|].
    pose proof (skipWs_cons _ _ _ Er0) as Lr0.
    destruct (d =? 58)%N eqn:E2; [|discriminate].
    destruct (Json.parseValue f r') as [[v1 r2]|] eqn:Ev; [|discriminate].
    apply IHV in Ev as [L1 K1].
    destruct (Json.skipWs r2) as [|e r3] eqn:Er2; [discriminate|].
    pose proof (skipWs_cons _ _ _ Er2) as Lr2.
    destruct (e =? 44)%N eqn:E3.
    + apply IHM in H as [L K]. split; [lia|].
      intros [|f'] Hf; [lia|].
      cbn [Json.parseMembers]. rewrite Es, E1, Ec, Er0, E2.
      rewrite K1 by lia. rewrite Er2, E3. apply K. lia.
    + destruct (e =? 125)%N eqn:E4; [|discriminate].
      injection H as <- <-. split; [lia|].
      intros [|f'] Hf; [lia|].
      cbn [Json.parseMembers]. rewrite Es, E1, Ec, Er0, E2.
      rewrite K1 by lia. now rewrite Er2, E3, E4.
Qed.

(** The fuel [Json.parse] runs with is enough for whatever any fuel can
    parse. *)
Lemma parse_fuel (text : jsstring) (f : nat) (v : JValue) (r : jsstring) :
  Json.parseValue f text = Some (v, r) ->
  Json.parseValue (2 * length text + 2) text = Some (v, r).
Proof.
  intros H. destruct (parse_fuel_enough f) as (HV & _ & _).
  apply HV in H as [_ K]. apply K. lia.
Qed.

(* ================================================================== *)
(** * Traces: facts *)
(* ================================================================== *)

Lemma count_app (p : Event -> bool) (a b : Trace) :
  count p (a ++ b) = count p a + count p b.
Proof.
  unfold count. now rewrite filter_app, length_app.
Qed.

Lemma timeouts_app (a b : Trace) :
  timeouts (a ++ b) = timeouts a ++ timeouts b.
Proof.
  induction a as [|ev a IH]; simpl; [reflexivity|].
  destruct ev; simpl; now rewrite IH.
Qed.

Lemma logQueries_attempts (retries : Z) (k : nat) :
  logQueries (attemptsTrace retries k) = k.
Proof.
  revert retries. induction k as [|k IH]; intros retries; [reflexivity|].
  simpl. unfold logQueries, count in *. simpl. now rewrite IH.
Qed.

Lemma clockReads_attempts (retries : Z) (k : nat) :
  clockReads (attemptsTrace retries k) = 0.
Proof.
  revert retries. induction k as [|k IH]; intros retries; [reflexivity|].
  simpl. unfold clockReads, count in *. simpl. now rewrite IH.
Qed.

Lemma submissions_attempts (retries : Z) (k : nat) :
  submissions (attemptsTrace retries k) = 0.
Proof.
  revert retries. induction k as [|k IH]; intros retries; [reflexivity|].
  simpl. unfold submissions, count in *. simpl. now rewrite IH.
Qed.

Lemma timeouts_attempts (retries : Z) (k : nat) :
  timeouts (attemptsTrace retries k)
  = map (fun i => backoffDelay (retries + Z.of_nat i)) (seq 0 k).
Proof.
  revert retries. induction k as [|k IH]; intros retries; [reflexivity|].
  cbn [attemptsTrace timeouts seq map]. rewrite IH, <- seq_shift, map_map.
  f_equal.
  - f_equal. lia.
  - apply map_ext. intros i. f_equal. lia.
Qed.

(* ================================================================== *)
(** * The scan of one snapshot: facts *)
(* ================================================================== *)

Lemma scanLogs_first_match (prefix : jsstring) (T : Z) (logs : list LogEntry)
                           (body : jsstring) :
  scanLogs prefix T logs = Some body ->
  exists before entry after,
    logs = before ++ entry :: after /\
    forallb (fun e => negb (qualifies prefix T e)) before = true /\
    qualifies prefix T entry = true /\
    body = returnedBody prefix entry.
Proof.
  induction logs as [|log rest IH]; simpl; [discriminate|].
  destruct (qualifies prefix T log) eqn:Hq.
  - intros [= <-]. now exists [], log, rest.
  - intros H. destruct (IH H) as (b & e & a & -> & Hb & He & Hbody).
    exists (log :: b), e, a. simpl. rewrite Hq. now repeat split.
Qed.

Lemma qualifies_spec (prefix : jsstring) (T : Z) (log : LogEntry) :
  qualifies prefix T log = true ->
  exists t,
    time log = Some t /\ (T < t)%Z /\
    JsString.startsWith (message log) prefix = true.
Proof.
  unfold qualifies. destruct (time log) as [t|]; simpl; [|discriminate].
  intros H. apply andb_true_iff in H as [Ht Hp].
  exists t. repeat split; [now apply Z.ltb_lt | exact Hp].
Qed.

Lemma scanLogs_without_stale (prefix : jsstring) (T : Z)
                             (logs : list LogEntry) :
  scanLogs prefix T (filter (isNewer T) logs) = scanLogs prefix T logs.
Proof.
  assert (Hq : forall log, qualifies prefix T log
                 = isNewer T log && JsString.startsWith (message log) prefix)
    by reflexivity.
  induction logs as [|log rest IH]; simpl; [reflexivity|].
  destruct (isNewer T log) eqn:Hn; simpl.
  - now rewrite IH.
  - now rewrite Hq, Hn.
Qed.

Lemma scanLogs_level_blind (prefix : jsstring) (T : Z)
                           (logs : list LogEntry) :
  scanLogs prefix T (map eraseLevel logs) = scanLogs prefix T logs.
Proof.
  induction logs as [|log rest IH]; simpl; [reflexivity|].
  now rewrite IH.
Qed.

(** In a snapshot listed oldest first, the first qualifying entry is
    a qualifying entry of least time. *)
Lemma first_match_is_oldest (prefix : jsstring) (T : Z)
                            (before after : list LogEntry)
                            (entry : LogEntry) :
  listsOldestFirst (before ++ entry :: after) ->
  forallb (fun e => negb (qualifies prefix T e)) before = true ->
  forall e', In e' (before ++ entry :: after) ->
             qualifies prefix T e' = true ->
             notAfter entry e'.
Proof.
  intros Hs Hb e' Hin Hq.
  apply in_app_or in Hin as [Hin | [<- | Hin]].
  - rewrite forallb_forall in Hb. apply Hb in Hin.
    rewrite Hq in Hin. discriminate.
  - intros ta tb Ea Eb. rewrite Ea in Eb. injection Eb as <-. lia.
  - clear Hb. induction before as [|b before IH]; simpl in Hs.
    + apply StronglySorted_inv in Hs as [_ Hf].
      rewrite Forall_forall in Hf. now apply Hf.
    + apply StronglySorted_inv in Hs as [Hs _]. now apply IH.
Qed.

(* ================================================================== *)
(** * The polling loop: facts *)
(* ================================================================== *)

Section PollFacts.

Variable env : Env.

Lemma pollLoop_step (fuel : nat) (prefix : jsstring) (T retries : Z)
                    (tr : Trace) :
  pollLoop env (S fuel) prefix T retries tr =
    let tr' := tr ++ attemptsTrace retries 1 in
    match logsReply env (logQueries tr) with
    | Resolves logs =>
        match scanLogs prefix T logs with
        | Some body => (Fulfilled body, tr')
        | None =>
            if (5 <=? retries + 1)%Z then (Rejected (pollTimeout prefix), tr')
            else pollLoop env fuel prefix T (retries + 1) tr'
        end
    | Rejects reason => (Rejected (ErrGQL reason), tr')
    end.
Proof.
  cbn [pollLoop attemptsTrace]. unfold bind, sleep, emit, queryLogs.
  replace (logQueries (tr ++ [SetTimeout (backoffDelay retries)]))
    with (logQueries tr)
    by (unfold logQueries; rewrite count_app; cbn; lia).
  rewrite <- app_assoc. cbn [app].
  destruct (logsReply env (logQueries tr)) as [logs|reason];
    [|reflexivity].
  destruct (scanLogs prefix T logs); [reflexivity|].
  destruct (5 <=? retries + 1)%Z; reflexivity.
Qed.

Lemma attempts_snoc (tr : Trace) (retries : Z) (k : nat) :
  (tr ++ attemptsTrace retries 1) ++ attemptsTrace (retries + 1) k
  = tr ++ attemptsTrace retries (S k).
Proof. now rewrite <- app_assoc. Qed.

Lemma logQueries_after_attempts (tr : Trace) (retries : Z) (k : nat) :
  logQueries (tr ++ attemptsTrace retries k) = logQueries tr + k.
Proof.
  unfold logQueries. rewrite count_app.
  now rewrite (logQueries_attempts retries k : count _ _ = k).
Qed.

(** Whatever the loop ends with, it has run between one and [fuel]
    rounds and done nothing else. *)
Lemma pollLoop_trace (fuel : nat) (prefix : jsstring) (T : Z) :
  forall (retries : Z) (tr : Trace),
    exists k,
      1 <= k <= S fuel /\
      snd (pollLoop env (S fuel) prefix T retries tr)
      = tr ++ attemptsTrace retries k.
Proof.
  induction fuel as [|fuel IH]; intros retries tr; rewrite pollLoop_step;
    cbv zeta.
  - exists 1. split; [lia|].
    destruct (logsReply env (logQueries tr)) as [logs|reason];
      [|reflexivity].
    destruct (scanLogs prefix T logs); [reflexivity|].
    destruct (5 <=? retries + 1)%Z; reflexivity.
  - destruct (logsReply env (logQueries tr)) as [logs|reason];
      [|exists 1; split; [lia | reflexivity]].
    destruct (scanLogs prefix T logs);
      [exists 1; split; [lia | reflexivity]|].
    destruct (5 <=? retries + 1)%Z;
      [exists 1; split; [lia | reflexivity]|].
    destruct (IH (retries + 1)%Z (tr ++ attemptsTrace retries 1))
      as (k & Hk & E).
    exists (S k). split; [lia|]. now rewrite E, attempts_snoc.
Qed.

(** The loop leaves by [return] or [throw] as soon as [retries]
    reaches 5: [fuel] rounds are enough when [5 <= retries + fuel]. *)
Lemma pollLoop_fuel (fuel : nat) (prefix : jsstring) (T : Z) :
  forall (retries : Z) (tr : Trace),
    (5 <= retries + Z.of_nat (S fuel))%Z ->
    (exists body, fst (pollLoop env (S fuel) prefix T retries tr)
                  = Fulfilled body)
    \/ (exists e, fst (pollLoop env (S fuel) prefix T retries tr)
                  = Rejected e).
Proof.
  induction fuel as [|fuel IH]; intros retries tr Hf; rewrite pollLoop_step;
    cbv zeta;
    (destruct (logsReply env (logQueries tr)) as [logs|reason];
     [|right; eexists; reflexivity]);
    (destruct (scanLogs prefix T logs);
     [left; eexists; reflexivity|]);
    (destruct (5 <=? retries + 1)%Z eqn:H5;
     [right; eexists; reflexivity|]).
  - apply Z.leb_gt in H5. lia.
  - apply IH. lia.
Qed.

(** A successful loop: which round matched, what the earlier rounds
    saw, and where the trace stops. *)
Lemma pollLoop_fulfilled (fuel : nat) (prefix : jsstring) (T : Z) :
  forall (retries : Z) (tr : Trace) (body : jsstring) (tr' : Trace),
    pollLoop env fuel prefix T retries tr = (Fulfilled body, tr') ->
    exists n logs,
      n < fuel /\
      (forall j, j < n -> missAt env prefix T (logQueries tr + j)) /\
      logsReply env (logQueries tr + n) = Resolves logs /\
      scanLogs prefix T logs = Some body /\
      tr' = tr ++ attemptsTrace retries (S n).
Proof.
  induction fuel as [|fuel IH]; intros retries tr body tr';
    [discriminate|].
  rewrite pollLoop_step; cbv zeta.
  destruct (logsReply env (logQueries tr)) as [logs|reason] eqn:El;
    [|discriminate].
  destruct (scanLogs prefix T logs) as [b|] eqn:Es.
  - intros [= <- <-]. exists 0, logs. rewrite Nat.add_0_r.
    repeat split; try assumption; [lia | intros j Hj; lia].
  - destruct (5 <=? retries + 1)%Z; [discriminate|].
    intros H. apply IH in H as (n & logs' & Hn & Hmiss & Hl & Hs & ->).
    rewrite logQueries_after_attempts in Hl, Hmiss.
    exists (S n), logs'. repeat split.
    + lia.
    + intros [|j] Hj.
      * rewrite Nat.add_0_r. now exists logs.
      * replace (logQueries tr + S j) with (logQueries tr + 1 + j) by lia.
        apply Hmiss. lia.
    + now replace (logQueries tr + S n) with (logQueries tr + 1 + n) by lia.
    + exact Hs.
    + apply attempts_snoc.
Qed.

(** A loop of [fuel] rounds that matches nothing, the last of them
    being the fifth. *)
Lemma pollLoop_all_miss (fuel : nat) (prefix : jsstring) (T : Z) :
  forall (retries : Z) (tr : Trace),
    (retries + Z.of_nat (S fuel) = 5)%Z ->
    (forall j, j < S fuel -> missAt env prefix T (logQueries tr + j)) ->
    pollLoop env (S fuel) prefix T retries tr
    = (Rejected (pollTimeout prefix),
       tr ++ attemptsTrace retries (S fuel)).
Proof.
  induction fuel as [|fuel IH]; intros retries tr Hr Hmiss;
    rewrite pollLoop_step; cbv zeta;
    destruct (Hmiss 0 ltac:(lia)) as (logs & El & Es);
    rewrite Nat.add_0_r in El; rewrite El, Es.
  - replace (5 <=? retries + 1)%Z with true
      by (symmetry; apply Z.leb_le; lia).
    reflexivity.
  - replace (5 <=? retries + 1)%Z with false
      by (symmetry; apply Z.leb_gt; lia).
    rewrite IH.
    + now rewrite attempts_snoc.
    + lia.
    + intros j Hj. rewrite logQueries_after_attempts.
      replace (logQueries tr + 1 + j) with (logQueries tr + S j) by lia.
      apply Hmiss. lia.
Qed.

End PollFacts.

(* ================================================================== *)
(** * Counting along a trace *)
(* ================================================================== *)

Lemma clockReads_app (a b : Trace) :
  clockReads (a ++ b) = clockReads a + clockReads b.
Proof. apply count_app. Qed.

Lemma logQueries_app (a b : Trace) :
  logQueries (a ++ b) = logQueries a + logQueries b.
Proof. apply count_app. Qed.

Lemma submissions_app (a b : Trace) :
  submissions (a ++ b) = submissions a + submissions b.
Proof. apply count_app. Qed.

Lemma count_cons (p : Event -> bool) (ev : Event) (tr : Trace) :
  count p (ev :: tr) = (if p ev then 1 else 0) + count p tr.
Proof. unfold count. simpl. now destruct (p ev). Qed.

Lemma clockReads_cons (ev : Event) (tr : Trace) :
  clockReads (ev :: tr) = (if isDateNow ev then 1 else 0) + clockReads tr.
Proof. apply count_cons. Qed.

Lemma logQueries_cons (ev : Event) (tr : Trace) :
  logQueries (ev :: tr) = (if isQueryLogs ev then 1 else 0) + logQueries tr.
Proof. apply count_cons. Qed.

Lemma submissions_cons (ev : Event) (tr : Trace) :
  submissions (ev :: tr)
  = (if isRunPluginTask ev then 1 else 0) + submissions tr.
Proof. apply count_cons. Qed.

Lemma clockReads_nil : clockReads [] = 0.
Proof. reflexivity. Qed.

Lemma logQueries_nil : logQueries [] = 0.
Proof. reflexivity. Qed.

Lemma submissions_nil : submissions [] = 0.
Proof. reflexivity. Qed.

Create Rewrite HintDb trace.

#[local] Hint Rewrite
  clockReads_app logQueries_app submissions_app
  clockReads_cons logQueries_cons submissions_cons
  clockReads_nil logQueries_nil submissions_nil
  clockReads_attempts logQueries_attempts submissions_attempts : trace.

Ltac count_trace := autorewrite with trace in *; cbn [isDateNow isQueryLogs
  isRunPluginTask] in *.

(* ================================================================== *)
(** * One poll: facts *)
(* ================================================================== *)

Section OnePoll.

Variable env : Env.

Lemma pollLogsForMessage_unfold (prefix : jsstring) (surplus : list JsArg)
                                (tr : Trace) :
  pollLogsForMessage env prefix surplus tr
  = pollLoop env 5 prefix (clock env (clockReads tr)) 0
      (tr ++ [DateNow (clock env (clockReads tr)); SetTimeout 500]).
Proof.
  unfold pollLogsForMessage, bind, dateNow, sleep, emit.
  now rewrite <- app_assoc.
Qed.

(** A poll reads the clock, waits 500 ms and runs one to five rounds. *)
Lemma pollLogsForMessage_trace (prefix : jsstring) (surplus : list JsArg)
                               (tr : Trace) :
  exists k,
    1 <= k <= 5 /\
    snd (pollLogsForMessage env prefix surplus tr)
    = tr ++ DateNow (clock env (clockReads tr)) :: SetTimeout 500
         :: attemptsTrace 0 k.
Proof.
  rewrite pollLogsForMessage_unfold.
  destruct (pollLoop_trace env 4 prefix (clock env (clockReads tr)) 0
              (tr ++ [DateNow (clock env (clockReads tr)); SetTimeout 500]))
    as (k & Hk & E).
  exists k. split; [exact Hk|]. rewrite E. now rewrite <- app_assoc.
Qed.

(** A poll always settles, by a value or by a rejection. *)
Lemma pollLogsForMessage_settles (prefix : jsstring) (surplus : list JsArg)
                                 (tr : Trace) :
  (exists body, fst (pollLogsForMessage env prefix surplus tr)
                = Fulfilled body)
  \/ (exists e, fst (pollLogsForMessage env prefix surplus tr)
                = Rejected e).
Proof.
  rewrite pollLogsForMessage_unfold. apply pollLoop_fuel. lia.
Qed.

Lemma pollLogsForMessage_counts (prefix : jsstring) (surplus : list JsArg)
                                (tr : Trace) :
  let tr' := snd (pollLogsForMessage env prefix surplus tr) in
  clockReads tr' = clockReads tr + 1 /\
  logQueries tr < logQueries tr' <= logQueries tr + 5 /\
  submissions tr' = submissions tr.
Proof.
  destruct (pollLogsForMessage_trace prefix surplus tr) as (k & Hk & E).
  cbv zeta. rewrite E. count_trace. lia.
Qed.

End OnePoll.

(* ================================================================== *)
(** * The retry loop: facts *)
(* ================================================================== *)

Section Retries.

Variable env : Env.
Variables (prefix : jsstring) (reqTime : Z) (tagName : jsstring).
Variable maxRetries : Z.

(** [fuel] runs of [tryPollLogs] cost at most [fuel] polls, at most
    five queries a poll, and no submission. *)
Lemma tryPollLogs_counts (fuel : nat) :
  forall (attempts : Z) (tr : Trace),
    let tr' := snd (tryPollLogs env fuel prefix reqTime tagName maxRetries
                      attempts tr) in
    clockReads tr <= clockReads tr' <= clockReads tr + fuel /\
    logQueries tr <= logQueries tr' /\
    logQueries tr' + 5 * clockReads tr
      <= logQueries tr + 5 * clockReads tr' /\
    submissions tr' = submissions tr.
Proof.
  induction fuel as [|fuel IH]; intros attempts tr; cbv zeta.
  - simpl. lia.
  - cbn [tryPollLogs].
    pose proof (pollLogsForMessage_counts env prefix
                  [ArgString (lit "Info"); ArgNumber reqTime] tr) as Hc.
    cbv zeta in Hc.
    destruct (pollLogsForMessage env prefix
                [ArgString (lit "Info"); ArgNumber reqTime] tr)
      as [res tr1].
    cbn [snd] in Hc.
    assert (Hcatch : forall error,
      let tr' := snd
        (if (maxRetries <=? attempts + 1)%Z
         then (Rejected error, tr1 ++ [ConsoleWarnRetry (attempts + 1) tagName])
         else tryPollLogs env fuel prefix reqTime tagName maxRetries
                (attempts + 1)
                (tr1 ++ [ConsoleWarnRetry (attempts + 1) tagName])) in
      clockReads tr <= clockReads tr' <= clockReads tr + S fuel /\
      logQueries tr <= logQueries tr' /\
      logQueries tr' + 5 * clockReads tr
        <= logQueries tr + 5 * clockReads tr' /\
      submissions tr' = submissions tr).
    { intros error. cbv zeta.
      destruct (maxRetries <=? attempts + 1)%Z.
      - cbn [snd]. count_trace. lia.
      - specialize (IH (attempts + 1)%Z
                       (tr1 ++ [ConsoleWarnRetry (attempts + 1) tagName])).
        cbv zeta in IH. count_trace. lia. }
    destruct res as [result|error| |]; cbn [snd].
    + destruct (parseResult result) as [parsed|]; [|apply Hcatch].
      destruct (truthyOpt (parsedAndUrl parsed));
        [destruct (stringifiesOpt (getUrl parsed)); [|apply Hcatch]|];
        cbn [snd]; count_trace; lia.
    + apply Hcatch.
    + lia.
    + lia.
Qed.

(** [tryPollLogs] only adds to the trace. *)
Lemma tryPollLogs_extends (fuel : nat) :
  forall (attempts : Z) (tr : Trace),
    exists ext,
      snd (tryPollLogs env fuel prefix reqTime tagName maxRetries attempts tr)
      = tr ++ ext.
Proof.
  induction fuel as [|fuel IH]; intros attempts tr.
  - exists []. simpl. now rewrite app_nil_r.
  - cbn [tryPollLogs].
    destruct (pollLogsForMessage_trace env prefix
                [ArgString (lit "Info"); ArgNumber reqTime] tr)
      as (k & _ & Ek).
    destruct (pollLogsForMessage env prefix
                [ArgString (lit "Info"); ArgNumber reqTime] tr)
      as [res tr1].
    cbn [snd] in Ek.
    assert (Hcatch : forall error,
      exists ext,
        snd (if (maxRetries <=? attempts + 1)%Z
             then (Rejected error,
                   tr1 ++ [ConsoleWarnRetry (attempts + 1) tagName])
             else tryPollLogs env fuel prefix reqTime tagName maxRetries
                    (attempts + 1)
                    (tr1 ++ [ConsoleWarnRetry (attempts + 1) tagName]))
        = tr ++ ext).
    { intros error. destruct (maxRetries <=? attempts + 1)%Z.
      - eexists. cbn [snd]. rewrite Ek, <- app_assoc. reflexivity.
      - destruct (IH (attempts + 1)%Z
                     (tr1 ++ [ConsoleWarnRetry (attempts + 1) tagName]))
          as (ext & ->).
        eexists. rewrite Ek, <- !app_assoc. reflexivity. }
    destruct res as [result|error| |]; cbn [snd].
    + destruct (parseResult result) as [parsed|]; [|apply Hcatch].
      destruct (truthyOpt (parsedAndUrl parsed));
        [destruct (stringifiesOpt (getUrl parsed)); [|apply Hcatch]|];
        cbn [snd]; eexists; rewrite Ek, <- ?app_assoc; reflexivity.
    + apply Hcatch.
    + eexists; rewrite Ek; reflexivity.
    + eexists; rewrite Ek; reflexivity.
Qed.

(** A run of [tryPollLogs] starts with a poll. *)
Lemma tryPollLogs_polls_once (fuel : nat) (attempts : Z) (tr : Trace) :
  clockReads tr + 1
  <= clockReads (snd (tryPollLogs env (S fuel) prefix reqTime tagName
                        maxRetries attempts tr)).
Proof.
  cbn [tryPollLogs].
  pose proof (pollLogsForMessage_counts env prefix
                [ArgString (lit "Info"); ArgNumber reqTime] tr) as Hc.
  cbv zeta in Hc.
  destruct (pollLogsForMessage env prefix
              [ArgString (lit "Info"); ArgNumber reqTime] tr)
    as [res tr1].
  cbn [snd] in Hc.
  assert (Hcatch : forall error,
    clockReads tr + 1
    <= clockReads (snd
         (if (maxRetries <=? attempts + 1)%Z
          then (Rejected error,
                tr1 ++ [ConsoleWarnRetry (attempts + 1) tagName])
          else tryPollLogs env fuel prefix reqTime tagName maxRetries
                 (attempts + 1)
                 (tr1 ++ [ConsoleWarnRetry (attempts + 1) tagName])))).
  { intros error. destruct (maxRetries <=? attempts + 1)%Z.
    - cbn [snd]. count_trace. lia.
    - pose proof (tryPollLogs_counts fuel (attempts + 1)%Z
                    (tr1 ++ [ConsoleWarnRetry (attempts + 1) tagName]))
        as Hr.
      cbv zeta in Hr. count_trace. lia. }
  destruct res as [result|error| |]; cbn [snd]; try lia.
  - destruct (parseResult result) as [parsed|]; [|apply Hcatch].
    destruct (truthyOpt (parsedAndUrl parsed));
      [destruct (stringifiesOpt (getUrl parsed)); [|apply Hcatch]|];
      cbn [snd]; count_trace; lia.
  - apply Hcatch.
Qed.

(** The recursion stops once [attempts] reaches [maxRetries], and it
    starts with one run whatever [maxRetries] is. *)
Lemma tryPollLogs_fuel (fuel : nat) :
  forall (attempts : Z) (tr : Trace),
    (maxRetries <= attempts + Z.of_nat (S fuel))%Z ->
    (exists url, fst (tryPollLogs env (S fuel) prefix reqTime tagName
                        maxRetries attempts tr) = Fulfilled url)
    \/ (exists e, fst (tryPollLogs env (S fuel) prefix reqTime tagName
                         maxRetries attempts tr) = Rejected e).
Proof.
  induction fuel as [|fuel IH]; intros attempts tr Hf;
    cbn [tryPollLogs];
    destruct (pollLogsForMessage_settles env prefix
                [ArgString (lit "Info"); ArgNumber reqTime] tr)
      as [(body & E) | (e & E)];
    destruct (pollLogsForMessage env prefix
                [ArgString (lit "Info"); ArgNumber reqTime] tr)
      as [res tr1]; cbn [fst] in E; subst res.
  - replace (maxRetries <=? attempts + 1)%Z with true
      by (symmetry; apply Z.leb_le; lia).
    destruct (parseResult body) as [parsed|];
      [|right; eexists; reflexivity].
    destruct (truthyOpt (parsedAndUrl parsed));
      [|right; eexists; reflexivity].
    destruct (stringifiesOpt (getUrl parsed));
      [left | right]; eexists; reflexivity.
  - replace (maxRetries <=? attempts + 1)%Z with true
      by (symmetry; apply Z.leb_le; lia).
    right; eexists; reflexivity.
  - assert (Hcatch : forall error,
      (exists url,
          fst (if (maxRetries <=? attempts + 1)%Z
               then (Rejected error,
                     tr1 ++ [ConsoleWarnRetry (attempts + 1) tagName])
               else tryPollLogs env (S fuel) prefix reqTime tagName
                      maxRetries (attempts + 1)
                      (tr1 ++ [ConsoleWarnRetry (attempts + 1) tagName]))
          = Fulfilled url)
      \/ (exists e,
            fst (if (maxRetries <=? attempts + 1)%Z
                 then (Rejected error,
                       tr1 ++ [ConsoleWarnRetry (attempts + 1) tagName])
                 else tryPollLogs env (S fuel) prefix reqTime tagName
                        maxRetries (attempts + 1)
                        (tr1 ++ [ConsoleWarnRetry (attempts + 1) tagName]))
            = Rejected e)).
    { intros error. destruct (maxRetries <=? attempts + 1)%Z eqn:Hm;
        [right; eexists; reflexivity | apply IH].
      apply Z.leb_gt in Hm. lia. }
    destruct (parseResult body) as [parsed|]; [|apply Hcatch].
    destruct (truthyOpt (parsedAndUrl parsed));
      [|right; eexists; reflexivity].
    destruct (stringifiesOpt (getUrl parsed));
      [left; eexists; reflexivity | apply Hcatch].
  - destruct (maxRetries <=? attempts + 1)%Z eqn:Hm;
      [right; eexists; reflexivity | apply IH].
    apply Z.leb_gt in Hm. lia.
Qed.

End Retries.

(* ================================================================== *)
(** * Two environments side by side *)
(* ================================================================== *)

Lemma pollLoop_ext (env1 env2 : Env) (prefix : jsstring) (T : Z) :
  (forall k, scanReply prefix T (logsReply env1 k)
             = scanReply prefix T (logsReply env2 k)) ->
  forall (fuel : nat) (retries : Z) (tr : Trace),
    pollLoop env1 fuel prefix T retries tr
    = pollLoop env2 fuel prefix T retries tr.
Proof.
  intros Hscan. induction fuel as [|fuel IH]; intros retries tr;
    [reflexivity|].
  rewrite !pollLoop_step. cbv zeta.
  specialize (Hscan (logQueries tr)). unfold scanReply in Hscan.
  destruct (logsReply env1 (logQueries tr)) as [l1|r1];
    destruct (logsReply env2 (logQueries tr)) as [l2|r2];
    try discriminate; injection Hscan as ->; [|reflexivity].
  destruct (scanLogs prefix T l2); [reflexivity|].
  destruct (5 <=? retries + 1)%Z; [reflexivity | apply IH].
Qed.

Lemma pollLogsForMessage_ext (env1 env2 : Env) (prefix : jsstring)
                             (surplus1 surplus2 : list JsArg) (tr : Trace) :
  clock env1 (clockReads tr) = clock env2 (clockReads tr) ->
  (forall k, scanReply prefix (clock env1 (clockReads tr)) (logsReply env1 k)
             = scanReply prefix (clock env1 (clockReads tr))
                 (logsReply env2 k)) ->
  pollLogsForMessage env1 prefix surplus1 tr
  = pollLogsForMessage env2 prefix surplus2 tr.
Proof.
  intros Hclock Hscan. rewrite !pollLogsForMessage_unfold, <- Hclock.
  now apply pollLoop_ext.
Qed.

(* ================================================================== *)
(** * The orchestrator: facts *)
(* ================================================================== *)

Lemma parsedAndUrl_truthy (v : JValue) :
  truthyOpt (parsedAndUrl v) = truthyOpt (getUrl v).
Proof.
  unfold parsedAndUrl. destruct (truthy v) eqn:Hv; [reflexivity|].
  simpl. rewrite Hv. now destruct v.
Qed.

Section Orchestrator.

Variable env : Env.

Lemma fetchTagIcon_unfold (tagName : jsstring) (tr : Trace) :
  fetchTagIcon env tagName tr =
    let reqTime := clock env (clockReads tr) in
    let tr1 := tr ++ [DateNow reqTime;
                      RunPluginTask PLUGIN_ID task
                        [(lit "name", operation);
                         (lit "tagName", tagName)]] in
    match runTaskReply env (submissions tr) with
    | Resolves _ =>
        match pollLogsWithRetries env (prefixOf operation) reqTime tagName
                5 tr1 with
        | (Fulfilled imageUrl, tr2) =>
            (Fulfilled imageUrl, tr2 ++ [ConsoleLogUrl tagName imageUrl])
        | (Rejected error, tr2) =>
            (Rejected error,
             tr2 ++ [ToastError tagName; ConsoleErrorNoImage tagName])
        | (Unsettled, tr2) => (Unsettled, tr2)
        | (OutOfFuel, tr2) => (OutOfFuel, tr2)
        end
    | Rejects _ => (Unsettled, tr1)
    end.
Proof.
  unfold fetchTagIcon, bind, dateNow, runPluginTask. cbv zeta.
  replace (submissions (tr ++ [DateNow (clock env (clockReads tr))]))
    with (submissions tr) by (count_trace; lia).
  rewrite <- !app_assoc. cbn [app].
  destruct (runTaskReply env (submissions tr)); reflexivity.
Qed.

(** What [pollLogsWithRetries] resolves with is a truthy [url]. *)
Lemma tryPollLogs_fulfilled_truthy (prefix : jsstring) (reqTime : Z)
                                   (tagName : jsstring) (maxRetries : Z)
                                   (fuel : nat) :
  forall (attempts : Z) (tr : Trace) (url : option JValue) (tr' : Trace),
    tryPollLogs env fuel prefix reqTime tagName maxRetries attempts tr
    = (Fulfilled url, tr') ->
    truthyOpt url = true.
Proof.
  induction fuel as [|fuel IH]; intros attempts tr url tr';
    [discriminate|].
  cbn [tryPollLogs].
  destruct (pollLogsForMessage env prefix
              [ArgString (lit "Info"); ArgNumber reqTime] tr)
    as [[result|error| |] tr1]; try discriminate.
  - destruct (parseResult result) as [parsed|].
    + destruct (truthyOpt (parsedAndUrl parsed)) eqn:Ht; [|discriminate].
      destruct (stringifiesOpt (getUrl parsed)).
      * intros [= <- _]. now rewrite <- parsedAndUrl_truthy.
      * destruct (maxRetries <=? attempts + 1)%Z; [discriminate | apply IH].
    + destruct (maxRetries <=? attempts + 1)%Z; [discriminate | apply IH].
  - destruct (maxRetries <=? attempts + 1)%Z; [discriminate | apply IH].
Qed.

(** Once the submission is accepted the promise of [fetchTagIcon]
    settles: with a truthy [url], or with a rejection. *)
Lemma fetchTagIcon_accepted_settles (tagName : jsstring) (tr : Trace)
                                    (ack : unit) :
  runTaskReply env (submissions tr) = Resolves ack ->
  (exists url, fst (fetchTagIcon env tagName tr) = Fulfilled url
               /\ truthyOpt url = true)
  \/ (exists e, fst (fetchTagIcon env tagName tr) = Rejected e).
Proof.
  intros Hack. rewrite fetchTagIcon_unfold. cbv zeta. rewrite Hack.
  set (tr1 := tr ++ _).
  unfold pollLogsWithRetries.
  assert (Hfuel : exists f, Z.to_nat (Z.max 1 5) = S f)
    by (exists 4; reflexivity).
  destruct Hfuel as (f & Ef). rewrite Ef.
  destruct (tryPollLogs_fuel env (prefixOf operation)
              (clock env (clockReads tr)) tagName 5 f 0 tr1)
    as [(url & E) | (e & E)]; [lia | |].
  - destruct (tryPollLogs env (S f) _ _ _ _ _ tr1) as [res tr2] eqn:Et.
    cbn [fst] in E. subst res. left. exists url. split; [reflexivity|].
    eapply tryPollLogs_fulfilled_truthy. exact Et.
  - destruct (tryPollLogs env (S f) _ _ _ _ _ tr1) as [res tr2].
    cbn [fst] in E. subst res. right. now exists e.
Qed.

End Orchestrator.

(* ================================================================== *)
(** * The properties of the dispatch and correlation protocol *)
(* ================================================================== *)

(** ** C1: one definitive outcome for every invocation *)

(** C1.  The code at the input where the claim breaks: when the task
    runner rejects the submission, [fetchTagIcon] has read the clock
    and sent the mutation, and its promise is left unsettled: it is
    neither resolved nor rejected.  (With an accepted submission the
    promise does settle, see [fetchTagIcon_accepted_settles].) *)
Theorem fetchTagIcon_rejected_submission_never_settles
    (env : Env) (tagName : jsstring) (tr : Trace) (reason : jsstring) :
  runTaskReply env (submissions tr) = Rejects reason ->
  fetchTagIcon env tagName tr
  = (Unsettled,
     tr ++ [DateNow (clock env (clockReads tr));
            RunPluginTask PLUGIN_ID task
              [(lit "name", operation); (lit "tagName", tagName)]]).
Proof.
  intros H. rewrite fetchTagIcon_unfold. cbv zeta. now rewrite H.
Qed.

Lemma fetchTagIcon_rejected_submission_witness :
  fst (fetchTagIcon Scenario.rejectedSubmission Scenario.forest [])
  = Unsettled.
Proof.
  rewrite (fetchTagIcon_rejected_submission_never_settles
             Scenario.rejectedSubmission Scenario.forest []
             (lit "Failed to fetch"));
    reflexivity.
Defined.

(** ** C2: the reference timestamp of the poller *)

(** C2.  The code at the input where the claim breaks: a line of the
    task dated 1020 ms, after the timestamp [fetchTagIcon] took before
    dispatch (1000 ms) and before the first poll started (1050 ms).  It
    is newer than the submission timestamp and carries the prefix, yet
    no poll ever returns it: each poll compares against the clock
    reading it takes itself, the third argument it is called with is
    not read, and all five polls of five queries each time out. *)
Theorem fetchTagIcon_misses_line_logged_before_polling :
  qualifies Scenario.iconPrefix (Scenario.wallClock 0) Scenario.earlyLine
  = true
  /\ qualifies Scenario.iconPrefix (Scenario.wallClock 1) Scenario.earlyLine
     = false
  /\ (forall k, logsReply Scenario.quickTask k
                = Resolves [Scenario.earlyLine])
  /\ fst (fetchTagIcon Scenario.quickTask Scenario.forest [])
     = Rejected (pollTimeout Scenario.iconPrefix)
  /\ logQueries (snd (fetchTagIcon Scenario.quickTask Scenario.forest []))
     = 25
  /\ (forall (env : Env) (prefix : jsstring) (reqTime : Z) (tr : Trace),
        pollLogsForMessage env prefix
          [ArgString (lit "Info"); ArgNumber reqTime] tr
        = pollLogsForMessage env prefix [] tr).
Proof.
  repeat split; vm_compute; reflexivity.
Qed.

(** ** C3: only newer, prefixed entries are returned *)

(** C3.  Let [T] be the reference timestamp of a poll, the clock reading
    it takes when it starts.  Whatever the poll returns is the body of an
    entry of a fetched snapshot whose time is strictly greater than [T]
    and whose message starts with the prefix; and the entries dated at
    or before [T] are invisible: with all of them removed from every
    snapshot the poll behaves the same. *)
Theorem pollLogsForMessage_returns_only_newer_prefixed
    (env : Env) (prefix : jsstring) (surplus : list JsArg) (tr : Trace)
    (body : jsstring) (tr' : Trace) :
  pollLogsForMessage env prefix surplus tr = (Fulfilled body, tr') ->
  let T := clock env (clockReads tr) in
  (exists k logs entry t,
      logsReply env k = Resolves logs /\ In entry logs /\
      time entry = Some t /\ (T < t)%Z /\
      JsString.startsWith (message entry) prefix = true /\
      body = returnedBody prefix entry)
  /\ pollLogsForMessage (withoutStale T env) prefix surplus tr
     = (Fulfilled body, tr').
Proof.
  intros H T. split.
  - rewrite pollLogsForMessage_unfold in H.
    apply pollLoop_fulfilled in H as (n & logs & _ & _ & Hl & Hs & _).
    apply scanLogs_first_match in Hs as (b & e & a & -> & _ & Hq & ->).
    apply qualifies_spec in Hq as (t & Ht & Hlt & Hp).
    exists (logQueries (tr ++ [DateNow T; SetTimeout 500]) + n),
      (b ++ e :: a), e, t.
    repeat split; try assumption. apply in_elt.
  - rewrite <- H. apply pollLogsForMessage_ext; [reflexivity|].
    intros k. cbn [withoutStale logsReply]. fold T.
    destruct (logsReply env k) as [logs|reason]; [|reflexivity].
    cbn [scanReply]. now rewrite scanLogs_without_stale.
Qed.

Lemma pollLogsForMessage_returns_only_newer_prefixed_witness :
  exists k logs entry t,
    logsReply Scenario.newestFirst k = Resolves logs /\ In entry logs /\
    time entry = Some t /\ (1000 < t)%Z /\
    JsString.startsWith (message entry) Scenario.iconPrefix = true /\
    returnedBody Scenario.iconPrefix Scenario.newerLine
    = returnedBody Scenario.iconPrefix entry.
Proof.
  refine (proj1 (pollLogsForMessage_returns_only_newer_prefixed
                   Scenario.newestFirst Scenario.iconPrefix [] []
                   (returnedBody Scenario.iconPrefix Scenario.newerLine)
                   [DateNow 1000; SetTimeout 500; SetTimeout 100; QueryLogs]
                   _)).
  vm_compute. reflexivity.
Defined.

(** ** C4: what a retry repeats *)

(** C4, as the claim states it, fails: with a task whose line shows up
    only after the first poll has timed out, [fetchTagIcon] announces a
    retry and polls again, three clock readings in all (one of its own,
    one for each poll), but the task was submitted once only, before
    the first poll. *)
Lemma retry_does_not_resubmit :
  let tr := snd (fetchTagIcon Scenario.slowTask Scenario.forest []) in
  submissions tr = 1 /\ clockReads tr = 3 /\ ~ resubmitsOnRetry tr.
Proof.
  cbv zeta. split; [vm_compute; reflexivity|].
  split; [vm_compute; reflexivity|].
  intros H.
  specialize (H (firstn 14 (snd (fetchTagIcon Scenario.slowTask
                                   Scenario.forest [])))
                1%Z Scenario.forest
                (skipn 15 (snd (fetchTagIcon Scenario.slowTask
                                  Scenario.forest [])))).
  assert (E : existsb isRunPluginTask
                (skipn 15 (snd (fetchTagIcon Scenario.slowTask
                                  Scenario.forest []))) = true).
  { apply H; vm_compute; reflexivity. }
  vm_compute in E. discriminate E.
Qed.

(** C4, amended.  [fetchTagIcon] stamps the request and submits the task
    exactly once per invocation, first thing, whatever happens later;
    [pollLogsWithRetries] never submits, so a retry after a failed poll
    only polls again. *)
Theorem fetchTagIcon_submits_exactly_once
    (env : Env) (tagName : jsstring) (tr : Trace) :
  submissions (snd (fetchTagIcon env tagName tr)) = submissions tr + 1
  /\ (exists rest,
        snd (fetchTagIcon env tagName tr)
        = tr ++ DateNow (clock env (clockReads tr))
             :: RunPluginTask PLUGIN_ID task
                  [(lit "name", operation); (lit "tagName", tagName)]
             :: rest
        /\ submissions rest = 0)
  /\ (forall prefix reqTime maxRetries tr0,
        submissions (snd (pollLogsWithRetries env prefix reqTime tagName
                            maxRetries tr0))
        = submissions tr0).
Proof.
  assert (Hpoll : forall prefix reqTime maxRetries tr0,
            submissions (snd (pollLogsWithRetries env prefix reqTime tagName
                                maxRetries tr0))
            = submissions tr0).
  { intros. unfold pollLogsWithRetries.
    apply (tryPollLogs_counts env prefix reqTime tagName maxRetries). }
  assert (Hrest : exists rest,
        snd (fetchTagIcon env tagName tr)
        = tr ++ DateNow (clock env (clockReads tr))
             :: RunPluginTask PLUGIN_ID task
                  [(lit "name", operation); (lit "tagName", tagName)]
             :: rest
        /\ submissions rest = 0).
  { rewrite fetchTagIcon_unfold. cbv zeta.
    set (tr1 := tr ++ [_; _]).
    assert (E1 : forall rest,
               tr1 ++ rest
               = tr ++ DateNow (clock env (clockReads tr))
                    :: RunPluginTask PLUGIN_ID task
                         [(lit "name", operation); (lit "tagName", tagName)]
                    :: rest)
      by (intros; unfold tr1; now rewrite <- app_assoc).
    destruct (runTaskReply env (submissions tr)).
    - pose proof (Hpoll (prefixOf operation) (clock env (clockReads tr))
                        5%Z tr1) as Hs.
      destruct (tryPollLogs_extends env (prefixOf operation)
                  (clock env (clockReads tr)) tagName 5
                  (Z.to_nat (Z.max 1 5)) 0 tr1) as (ext & Eext).
      fold (pollLogsWithRetries env (prefixOf operation)
              (clock env (clockReads tr)) tagName 5) in Eext.
      destruct (pollLogsWithRetries env (prefixOf operation)
                  (clock env (clockReads tr)) tagName 5 tr1)
        as [res tr2].
      cbn [snd] in Eext, Hs. subst tr2.
      assert (Hz : submissions ext = 0) by (count_trace; lia).
      destruct res; cbn [snd]; rewrite <- ?app_assoc, E1; eexists;
        (split; [reflexivity|]); count_trace; lia.
    - exists []. split; [now rewrite <- E1, app_nil_r | reflexivity].
  }
  split; [|split; [exact Hrest | exact Hpoll]].
  destruct Hrest as (rest & -> & Hz). count_trace. lia.
Qed.

(** ** C5: what a payload that fails validation leads to *)

(** C5, as the claim states it, fails: the first line found carries an
    empty record, which parses and has no [url].  [fetchTagIcon] rejects
    at once, after one poll of one query, although four of its five
    attempts remain and the log holds a proper line from the second
    query on. *)
Lemma missing_url_fails_without_retry :
  parseResult (returnedBody Scenario.iconPrefix Scenario.emptyRecord)
  = Some (JObject [])
  /\ getUrl (JObject []) = None
  /\ fetchTagIcon Scenario.emptyThenProper Scenario.forest []
     = (Rejected (noImageError Scenario.forest),
        [DateNow 1000;
         RunPluginTask PLUGIN_ID task
           [(lit "name", operation); (lit "tagName", Scenario.forest)];
         DateNow 1050; SetTimeout 500; SetTimeout 100; QueryLogs;
         ToastError Scenario.forest; ConsoleErrorNoImage Scenario.forest]).
Proof.
  repeat split; vm_compute; reflexivity.
Qed.

(** C5, amended.  In any round of the retry loop in which the poll
    returns a body:
    - a body that [JSON.parse] refuses is retried while attempts remain:
      the round counts as a failed attempt, a warning is logged, and
      [tryPollLogs] runs again, which starts another poll and submits
      nothing; once the attempts are used up the SyntaxError is the
      rejection;
    - a body that parses but has no truthy [url] rejects the promise at
      once with "No image generated for: <tag>", whatever attempts
      remain. *)
Theorem tryPollLogs_validation_failures
    (env : Env) (fuel : nat) (prefix : jsstring) (reqTime : Z)
    (tagName : jsstring) (maxRetries attempts : Z) (tr : Trace)
    (body : jsstring) (tr1 : Trace) :
  pollLogsForMessage env prefix
    [ArgString (lit "Info"); ArgNumber reqTime] tr = (Fulfilled body, tr1) ->
  let warned := tr1 ++ [ConsoleWarnRetry (attempts + 1) tagName] in
  let again (fuel' : nat) :=
    tryPollLogs env fuel' prefix reqTime tagName maxRetries (attempts + 1)
      warned in
  (parseResult body = None ->
   tryPollLogs env (S fuel) prefix reqTime tagName maxRetries attempts tr
   = if (attempts + 1 <? maxRetries)%Z then again fuel
     else (Rejected ErrSyntax, warned))
  /\ (forall fuel',
        clockReads tr1 + 1 <= clockReads (snd (again (S fuel')))
        /\ submissions (snd (again (S fuel'))) = submissions tr1)
  /\ (forall parsed,
        parseResult body = Some parsed ->
        truthyOpt (getUrl parsed) = false ->
        tryPollLogs env (S fuel) prefix reqTime tagName maxRetries attempts tr
        = (Rejected (noImageError tagName), tr1)).
Proof.
  intros Hpoll warned again. split; [|split].
  - intros Hparse. cbn [tryPollLogs]. rewrite Hpoll, Hparse.
    rewrite Z.ltb_antisym. now destruct (maxRetries <=? attempts + 1)%Z.
  - intros fuel'. unfold again.
    pose proof (tryPollLogs_polls_once env prefix reqTime tagName maxRetries
                  fuel' (attempts + 1)%Z warned) as Hp.
    pose proof (tryPollLogs_counts env prefix reqTime tagName maxRetries
                  (S fuel') (attempts + 1)%Z warned) as Hc.
    cbv zeta in Hc. unfold warned in *. count_trace. lia.
  - intros parsed Hparse Hurl. cbn [tryPollLogs].
    now rewrite Hpoll, Hparse, parsedAndUrl_truthy, Hurl.
Qed.

Lemma tryPollLogs_validation_failures_witness :
  tryPollLogs Scenario.emptyThenProper 5 Scenario.iconPrefix 1000
    Scenario.forest 5 0 []
  = (Rejected (noImageError Scenario.forest),
     [DateNow 1000; SetTimeout 500; SetTimeout 100; QueryLogs]).
Proof.
  refine (proj2 (proj2 (tryPollLogs_validation_failures
                   Scenario.emptyThenProper 4 Scenario.iconPrefix 1000
                   Scenario.forest 5 0 []
                   (returnedBody Scenario.iconPrefix Scenario.emptyRecord)
                   [DateNow 1000; SetTimeout 500; SetTimeout 100; QueryLogs]
                   _)) (JObject []) _ _);
    vm_compute; reflexivity.
Defined.

(** ** C6: which of several qualifying entries is returned *)

(** C6, as the claim states it, fails: two lines qualify and the log
    lists the newer one (3000 ms) before the older one (2000 ms).  The
    poll returns the body of the newer line; with the same two lines
    listed the other way round it returns the body of the older one. *)
Lemma poller_returns_newer_line_listed_first :
  qualifies Scenario.iconPrefix 1000 Scenario.newerLine = true
  /\ qualifies Scenario.iconPrefix 1000 Scenario.olderLine = true
  /\ time Scenario.olderLine = Some 2000%Z
  /\ time Scenario.newerLine = Some 3000%Z
  /\ fst (pollLogsForMessage Scenario.newestFirst Scenario.iconPrefix [] [])
     = Fulfilled (returnedBody Scenario.iconPrefix Scenario.newerLine)
  /\ fst (pollLogsForMessage Scenario.oldestFirst Scenario.iconPrefix [] [])
     = Fulfilled (returnedBody Scenario.iconPrefix Scenario.olderLine)
  /\ returnedBody Scenario.iconPrefix Scenario.newerLine
     <> returnedBody Scenario.iconPrefix Scenario.olderLine.
Proof.
  repeat split; try (vm_compute; reflexivity).
  vm_compute. discriminate.
Qed.

(** C6, amended.  A poll that returns a value returns the body of the
    first qualifying entry in the order the log API listed them, taken
    from the first snapshot that holds a qualifying entry; every earlier
    snapshot held none, and polling stops right there: the query that
    found the entry is the last event of the poll.  When that snapshot
    lists its entries oldest first, the entry returned has the smallest
    qualifying timestamp. *)
Theorem pollLogsForMessage_first_match_in_listed_order
    (env : Env) (prefix : jsstring) (surplus : list JsArg) (tr : Trace)
    (body : jsstring) (tr' : Trace) :
  pollLogsForMessage env prefix surplus tr = (Fulfilled body, tr') ->
  let T := clock env (clockReads tr) in
  exists n before entry after,
    n < 5 /\
    (forall j, j < n -> missAt env prefix T (logQueries tr + j)) /\
    logsReply env (logQueries tr + n) = Resolves (before ++ entry :: after) /\
    forallb (fun e => negb (qualifies prefix T e)) before = true /\
    qualifies prefix T entry = true /\
    body = returnedBody prefix entry /\
    tr' = tr ++ DateNow T :: SetTimeout 500 :: attemptsTrace 0 (S n) /\
    logQueries tr' = logQueries tr + n + 1 /\
    (listsOldestFirst (before ++ entry :: after) ->
     forall e', In e' (before ++ entry :: after) ->
                qualifies prefix T e' = true -> notAfter entry e').
Proof.
  intros H T. rewrite pollLogsForMessage_unfold in H. fold T in H.
  apply pollLoop_fulfilled in H as (n & logs & Hn & Hmiss & Hl & Hs & ->).
  assert (Eq : logQueries (tr ++ [DateNow T; SetTimeout 500])
               = logQueries tr) by (count_trace; lia).
  rewrite Eq in Hl, Hmiss.
  apply scanLogs_first_match in Hs as (b & e & a & -> & Hb & Hq & ->).
  exists n, b, e, a.
  split; [exact Hn|]. split; [exact Hmiss|]. split; [exact Hl|].
  split; [exact Hb|]. split; [exact Hq|]. split; [reflexivity|].
  split; [now rewrite <- app_assoc|]. split.
  - rewrite <- app_assoc. cbn [app]. count_trace. lia.
  - intros Hs. now apply first_match_is_oldest.
Qed.

Lemma pollLogsForMessage_first_match_in_listed_order_witness :
  let T := clock Scenario.newestFirst (clockReads []) in
  exists n before entry after,
    n < 5 /\
    (forall j, j < n ->
       missAt Scenario.newestFirst Scenario.iconPrefix T (logQueries [] + j)) /\
    logsReply Scenario.newestFirst (logQueries [] + n)
    = Resolves (before ++ entry :: after) /\
    forallb (fun e => negb (qualifies Scenario.iconPrefix T e)) before
    = true /\
    qualifies Scenario.iconPrefix T entry = true /\
    returnedBody Scenario.iconPrefix Scenario.newerLine
    = returnedBody Scenario.iconPrefix entry /\
    [DateNow 1000; SetTimeout 500; SetTimeout 100; QueryLogs]
    = [] ++ DateNow T :: SetTimeout 500 :: attemptsTrace 0 (S n) /\
    logQueries [DateNow 1000; SetTimeout 500; SetTimeout 100; QueryLogs]
    = logQueries [] + n + 1 /\
    (listsOldestFirst (before ++ entry :: after) ->
     forall e', In e' (before ++ entry :: after) ->
                qualifies Scenario.iconPrefix T e' = true ->
                notAfter entry e').
Proof.
  apply (pollLogsForMessage_first_match_in_listed_order
           Scenario.newestFirst Scenario.iconPrefix [] []
           (returnedBody Scenario.iconPrefix Scenario.newerLine)
           [DateNow 1000; SetTimeout 500; SetTimeout 100; QueryLogs]).
  vm_compute. reflexivity.
Defined.

(** ** C7: grace delay, backoff schedule and timeout *)

(** C7.  Every poll first waits the fixed grace delay of 500 ms and then
    runs between one and five rounds, round [i] (from 0) waiting
    [backoffDelay i = 100 * 2^i] ms before its query.  When five rounds
    in a row find nothing, the timers set are 500, then 100, 200, 400,
    800, 1600 ms, which add up to 3100 ms of backoff on top of the grace
    delay, and the poll fails with "Poll logs failed for message:
    <prefix>". *)
Theorem pollLogsForMessage_backoff_schedule
    (env : Env) (prefix : jsstring) (surplus : list JsArg) (tr : Trace) :
  let T := clock env (clockReads tr) in
  (forall i, backoffDelay (Z.of_nat i) = (100 * 2 ^ Z.of_nat i)%Z)
  /\ (exists k,
        1 <= k <= 5 /\
        snd (pollLogsForMessage env prefix surplus tr)
        = tr ++ DateNow T :: SetTimeout 500 :: attemptsTrace 0 k /\
        timeouts (snd (pollLogsForMessage env prefix surplus tr))
        = timeouts tr
            ++ 500%Z :: map (fun i => backoffDelay (Z.of_nat i)) (seq 0 k))
  /\ ((forall j, j < 5 -> missAt env prefix T (logQueries tr + j)) ->
      pollLogsForMessage env prefix surplus tr
      = (Rejected (pollTimeout prefix),
         tr ++ DateNow T :: SetTimeout 500 :: attemptsTrace 0 5)
      /\ timeouts (DateNow T :: SetTimeout 500 :: attemptsTrace 0 5)
         = [500; 100; 200; 400; 800; 1600]%Z
      /\ sumZ (timeouts (attemptsTrace 0 5)) = 3100%Z).
Proof.
  intros T. split; [|split].
  - intros i. unfold backoffDelay. lia.
  - destruct (pollLogsForMessage_trace env prefix surplus tr)
      as (k & Hk & E).
    exists k. split; [exact Hk|]. split; [exact E|].
    rewrite E, timeouts_app. cbn [timeouts].
    now rewrite timeouts_attempts.
  - intros Hmiss. split; [|split; reflexivity].
    rewrite pollLogsForMessage_unfold. fold T.
    rewrite pollLoop_all_miss.
    + now rewrite <- app_assoc.
    + reflexivity.
    + intros j Hj.
      replace (logQueries (tr ++ [DateNow T; SetTimeout 500]))
        with (logQueries tr) by (count_trace; lia).
      now apply Hmiss.
Qed.

Lemma pollLogsForMessage_backoff_schedule_witness :
  pollLogsForMessage Scenario.silent Scenario.iconPrefix [] []
  = (Rejected (pollTimeout Scenario.iconPrefix),
     [] ++ DateNow 1000 :: SetTimeout 500 :: attemptsTrace 0 5)
  /\ timeouts (DateNow 1000 :: SetTimeout 500 :: attemptsTrace 0 5)
     = [500; 100; 200; 400; 800; 1600]%Z
  /\ sumZ (timeouts (attemptsTrace 0 5)) = 3100%Z.
Proof.
  apply (proj2 (proj2 (pollLogsForMessage_backoff_schedule
                         Scenario.silent Scenario.iconPrefix [] []))).
  intros j _. exists []. split; reflexivity.
Defined.

(** ** C8: extraction *)



(** ** C9: termination and the number of log queries *)

(** C9.  Called with a whole number of retries that is at least one,
    as its one caller does ([fetchTagIcon] passes 5, which is also the
    default), [pollLogsWithRetries] settles, by a value or by a
    rejection.  Its retry recursion invokes [pollLogsForMessage] (one
    clock reading each) at most [maxRetries] times, and at least once;
    every invocation makes at most five log queries; so with
    [maxRetries = 5] the log endpoint is queried at most 25 times. *)
Theorem pollLogsWithRetries_terminates_within_bounds
    (env : Env) (prefix : jsstring) (reqTime : Z) (tagName : jsstring)
    (maxRetries : Z) (tr : Trace) :
  (1 <= maxRetries)%Z ->
  let r := pollLogsWithRetries env prefix reqTime tagName maxRetries tr in
  let polls := clockReads (snd r) - clockReads tr in
  let queries := logQueries (snd r) - logQueries tr in
  ((exists url, fst r = Fulfilled url) \/ (exists e, fst r = Rejected e))
  /\ 1 <= polls
  /\ (Z.of_nat polls <= maxRetries)%Z
  /\ queries <= 5 * polls
  /\ (maxRetries = 5%Z -> queries <= 25).
Proof.
  intros Hmax. cbv zeta.
  assert (Hb :
    clockReads tr + 1
    <= clockReads (snd (pollLogsWithRetries env prefix reqTime tagName
                          maxRetries tr))
    /\ (Z.of_nat (clockReads (snd (pollLogsWithRetries env prefix reqTime
                                     tagName maxRetries tr))
                  - clockReads tr) <= maxRetries)%Z
    /\ logQueries (snd (pollLogsWithRetries env prefix reqTime tagName
                          maxRetries tr)) - logQueries tr
       <= 5 * (clockReads (snd (pollLogsWithRetries env prefix reqTime
                                  tagName maxRetries tr))
               - clockReads tr)).
  { unfold pollLogsWithRetries.
    pose proof (tryPollLogs_counts env prefix reqTime tagName maxRetries
                  (Z.to_nat (Z.max 1 maxRetries)) 0 tr) as Hc.
    cbv zeta in Hc.
    pose proof (tryPollLogs_polls_once env prefix reqTime tagName maxRetries
                  (Z.to_nat (Z.max 1 maxRetries) - 1) 0 tr) as H1.
    replace (S (Z.to_nat (Z.max 1 maxRetries) - 1))
      with (Z.to_nat (Z.max 1 maxRetries)) in H1 by lia.
    lia. }
  split; [|split; [|split; [|split]]].
  - unfold pollLogsWithRetries.
    replace (Z.to_nat (Z.max 1 maxRetries))
      with (S (Z.to_nat (Z.max 1 maxRetries) - 1)) by lia.
    apply tryPollLogs_fuel. lia.
  - lia.
  - apply Hb.
  - apply Hb.
  - intros E. lia.
Qed.

Lemma pollLogsWithRetries_terminates_within_bounds_witness :
  (1 <= 5)%Z
  /\ let r := pollLogsWithRetries Scenario.silent Scenario.iconPrefix 1000
                Scenario.forest 5 [] in
     let polls := clockReads (snd r) - clockReads [] in
     let queries := logQueries (snd r) - logQueries [] in
     ((exists url, fst r = Fulfilled url) \/ (exists e, fst r = Rejected e))
     /\ 1 <= polls
     /\ (Z.of_nat polls <= 5)%Z
     /\ queries <= 5 * polls
     /\ (5%Z = 5%Z -> queries <= 25).
Proof.
  split; [lia|].
  apply (pollLogsWithRetries_terminates_within_bounds
           Scenario.silent Scenario.iconPrefix 1000 Scenario.forest 5 []).
  lia.
Defined.

(** ** C10: the log level plays no part *)

(** C10.  Two polls whose log snapshots differ at most in the [level]
    fields of their entries, started at the same point under the same
    clock, end the same way and leave the same trace, whatever further
    arguments (a level such as ['Info'], a timestamp) the two callers
    pass after the prefix. *)
Theorem pollLogsForMessage_level_blind
    (env1 env2 : Env) (prefix : jsstring) (surplus1 surplus2 : list JsArg)
    (tr : Trace) :
  (forall k, clock env1 k = clock env2 k) ->
  (forall k, sameUpToLevel (logsReply env1 k) (logsReply env2 k)) ->
  pollLogsForMessage env1 prefix surplus1 tr
  = pollLogsForMessage env2 prefix surplus2 tr.
Proof.
  intros Hclock Hlogs. apply pollLogsForMessage_ext; [apply Hclock|].
  intros k. specialize (Hlogs k). unfold sameUpToLevel in Hlogs.
  destruct (logsReply env1 k) as [l1|r1];
    destruct (logsReply env2 k) as [l2|r2];
    try contradiction; cbn [scanReply]; [|now subst].
  f_equal.
  rewrite <- (scanLogs_level_blind _ _ l1), <- (scanLogs_level_blind _ _ l2).
  now rewrite Hlogs.
Qed.

Lemma pollLogsForMessage_level_blind_witness :
  pollLogsForMessage Scenario.newestFirst Scenario.iconPrefix
    [ArgString (lit "Info"); ArgNumber 1000] []
  = pollLogsForMessage Scenario.newestFirstAsErrors Scenario.iconPrefix
      [ArgString (lit "Error")] [].
Proof.
  apply (pollLogsForMessage_level_blind
           Scenario.newestFirst Scenario.newestFirstAsErrors
           Scenario.iconPrefix
           [ArgString (lit "Info"); ArgNumber 1000]
           [ArgString (lit "Error")] []).
  - intros k. reflexivity.
  - intros k. reflexivity.
Defined.

(* ================================================================== *)
(** * The tag id in the URL: facts *)
(* ================================================================== *)

Lemma startsWith_prefix (p rest : jsstring) :
  JsString.startsWith (p ++ rest) p = true.
Proof.
  induction p as [|x p IH]; simpl; [now destruct rest|].
  now rewrite N.eqb_refl, IH.
Qed.

Lemma takeDigits_split (s : jsstring) :
  exists rest,
    s = takeDigits s ++ rest /\
    forallb Json.isDigit (takeDigits s) = true /\
    match rest with
    | [] => True
    | c :: _ => Json.isDigit c = false
    end.
Proof.
  induction s as [|c s (rest & E & Hd & Hr)]; simpl.
  - exists []. now repeat split.
  - destruct (Json.isDigit c) eqn:Hc.
    + exists rest. simpl. rewrite Hc, Hd. repeat split; [|exact Hr].
      now rewrite <- E.
    + exists (c :: s). now repeat split.
Qed.

Lemma tagsAtHead_sound (s id : jsstring) :
  tagsAtHead s = Some id ->
  id <> [] /\ forallb Json.isDigit id = true /\
  exists post,
    s = lit "tags/" ++ id ++ post /\
    match post with
    | [] => True
    | c :: _ => Json.isDigit c = false
    end.
Proof.
  unfold tagsAtHead.
  destruct (JsString.startsWith s (lit "tags/")) eqn:Hs; [|discriminate].
  apply startsWith_split in Hs.
  destruct (takeDigits_split (skipn 5 s)) as (post & E & Hd & Hp).
  destruct (takeDigits (skipn 5 s)) as [|d ds] eqn:Et; [discriminate|].
  intros [= <-]. split; [discriminate|]. split; [exact Hd|].
  exists post. split; [|exact Hp].
  rewrite Hs at 1. f_equal. exact E.
Qed.

Lemma tagsAtHead_complete (d : N) (post : jsstring) :
  Json.isDigit d = true ->
  tagsAtHead (lit "tags/" ++ d :: post) <> None.
Proof.
  intros Hd. unfold tagsAtHead. rewrite startsWith_prefix.
  cbn [lit length skipn app map String.list_ascii_of_string].
  simpl. rewrite Hd. discriminate.
Qed.

Lemma getTagId_unfold (url : jsstring) :
  getTagId url
  = match tagsAtHead url with
    | Some id => Some id
    | None => match url with
              | [] => None
              | _ :: rest => getTagId rest
              end
    end.
Proof. destruct url; reflexivity. Qed.

(** X1.  When [getTagId] returns, it returns a non-empty run of decimal
    digits that stands in the URL right after ["tags/"], taken to its
    end (no digit follows), at the leftmost place where ["tags/"] is
    followed by a digit. *)
Theorem getTagId_returns_leftmost_digits (url id : jsstring) :
  getTagId url = Some id ->
  id <> [] /\ forallb Json.isDigit id = true /\
  exists pre post,
    url = pre ++ lit "tags/" ++ id ++ post /\
    match post with
    | [] => True
    | c :: _ => Json.isDigit c = false
    end /\
    forall n, n < length pre -> tagsAtHead (skipn n url) = None.
Proof.
  induction url as [|c url IH]; rewrite getTagId_unfold.
  - destruct (tagsAtHead []) as [i|] eqn:E; [|discriminate].
    intros [= <-]. apply tagsAtHead_sound in E as (Hn & Hd & post & E & Hp).
    split; [exact Hn|]. split; [exact Hd|].
    exists [], post. repeat split; try assumption. simpl. lia.
  - destruct (tagsAtHead (c :: url)) as [i|] eqn:E.
    + intros [= <-]. apply tagsAtHead_sound in E as (Hn & Hd & post & E & Hp).
      split; [exact Hn|]. split; [exact Hd|].
      exists [], post. repeat split; try assumption. simpl. lia.
    + intros H. apply IH in H as (Hn & Hd & pre & post & Eu & Hp & Hl).
      split; [exact Hn|]. split; [exact Hd|].
      exists (c :: pre), post. split; [rewrite Eu at 1; reflexivity|].
      split; [exact Hp|].
      intros [|n] Hlt; [exact E|]. simpl. apply Hl. simpl in Hlt. lia.
Qed.

Lemma getTagId_returns_leftmost_digits_witness :
  lit "42" <> [] /\ forallb Json.isDigit (lit "42") = true /\
  exists pre post,
    lit "http://localhost:9999/tags/42?page=1"
    = pre ++ lit "tags/" ++ lit "42" ++ post /\
    match post with
    | [] => True
    | c :: _ => Json.isDigit c = false
    end /\
    forall n, n < length pre ->
              tagsAtHead (skipn n (lit "http://localhost:9999/tags/42?page=1"))
              = None.
Proof.
  apply (getTagId_returns_leftmost_digits
           (lit "http://localhost:9999/tags/42?page=1") (lit "42")).
  vm_compute. reflexivity.
Defined.

Lemma getTagId_found_later (c : N) (url : jsstring) :
  getTagId url <> None -> getTagId (c :: url) <> None.
Proof.
  intros H. rewrite getTagId_unfold.
  now destruct (tagsAtHead (c :: url)).
Qed.

Lemma getTagId_complete (pre : jsstring) (d : N) (post : jsstring) :
  Json.isDigit d = true ->
  getTagId (pre ++ lit "tags/" ++ d :: post) <> None.
Proof.
  intros Hd. induction pre as [|c pre IH].
  - change ([] ++ lit "tags/" ++ d :: post)
      with (lit "tags/" ++ d :: post).
    rewrite getTagId_unfold.
    destruct (tagsAtHead (lit "tags/" ++ d :: post)) eqn:E; [discriminate|].
    exfalso. exact (tagsAtHead_complete d post Hd E).
  - change ((c :: pre) ++ lit "tags/" ++ d :: post)
      with (c :: (pre ++ lit "tags/" ++ d :: post)).
    now apply getTagId_found_later.
Qed.

(** X2.  [getTagId] throws (the [match] gave [null]) exactly when the URL
    has no ["tags/"] followed by a decimal digit, as on the page that
    lists the tags. *)
Theorem getTagId_throws_iff_no_tag_in_url (url : jsstring) :
  getTagId url = None <->
  (forall pre d post,
      url = pre ++ lit "tags/" ++ d :: post -> Json.isDigit d = false).
Proof.
  split.
  - intros Hnone pre d post ->.
    destruct (Json.isDigit d) eqn:Hd; [|reflexivity].
    exfalso. exact (getTagId_complete pre d post Hd Hnone).
  - intros Hno. destruct (getTagId url) as [id|] eqn:E; [|reflexivity].
    apply getTagId_returns_leftmost_digits in E
      as (Hn & Hd & pre & post & Eu & _ & _).
    destruct id as [|d ds]; [congruence|].
    simpl in Hd. apply andb_true_iff in Hd as [Hd _].
    specialize (Hno pre d (ds ++ post) Eu). congruence.
Qed.


(* ================================================================== *)
(** * Plugin settings: facts *)
(* ================================================================== *)

Lemma requestsSent_app (a b : list Effect) :
  requestsSent (a ++ b) = requestsSent a + requestsSent b.
Proof. unfold requestsSent. now rewrite filter_app, length_app. Qed.

Lemma truthy_prop_object (key : jsstring) (v : JValue) :
  truthyOpt (getProp key v) = true -> exists members, v = JObject members.
Proof.
  destruct v; try discriminate. intros _. now eexists.
Qed.

(** X3.  A configuration whose [recraftApiUrl], [recraftTagIconSize] and
    [recraftTagIconFormat] are all truthy is handed back as it is, and
    nothing is sent to the server. *)
Theorem setupPluginDefaults_complete_config_unchanged
    (answers : nat -> Reply JsVal) (params : JValue) (log : list Effect) :
  truthyOpt (getProp (lit "recraftApiUrl") params) = true ->
  truthyOpt (getProp (lit "recraftTagIconSize") params) = true ->
  truthyOpt (getProp (lit "recraftTagIconFormat") params) = true ->
  setupPluginDefaults answers (Some params) log = (Returned params, log).
Proof.
  intros H1 H2 H3.
  destruct (truthy_prop_object _ _ H1) as (members & ->).
  unfold setupPluginDefaults, falsy. now rewrite H1, H2, H3.
Qed.

Lemma setupPluginDefaults_complete_config_unchanged_witness :
  setupPluginDefaults (fun _ => Rejects (lit "offline"))
    (Some Example.fullConfig) []
  = (Returned Example.fullConfig, []).
Proof.
  apply (setupPluginDefaults_complete_config_unchanged
           (fun _ => Rejects (lit "offline")) Example.fullConfig []);
    reflexivity.
Defined.

(** X4.  A configuration in which one of [recraftApiUrl],
    [recraftTagIconSize], [recraftTagIconFormat] is missing or falsy
    makes [setupPluginDefaults] send one [ConfigurePlugin] mutation, with
    the defaults filled in for the properties that are [undefined], and
    then reject with "Failed to update plugin configuration", whatever
    the server answers: it never resolves with the defaults. *)
Theorem setupPluginDefaults_incomplete_config_rejects
    (answers : nat -> Reply JsVal) (params : JValue) (log : list Effect) :
  params <> JNull ->
  falsy (getProp (lit "recraftApiUrl") params)
  || falsy (getProp (lit "recraftTagIconSize") params)
  || falsy (getProp (lit "recraftTagIconFormat") params) = true ->
  setupPluginDefaults answers (Some params) log
  = (Threw (NewError (lit "Failed to update plugin configuration")),
     log ++ [Sent (ConfigurePlugin PLUGIN_ID (defaultedConfig params))]).
Proof.
  intros Hnull Hmiss. unfold setupPluginDefaults.
  destruct params; try contradiction; rewrite Hmiss;
    unfold updatePluginConfig, callGQL;
    destruct (answers (requestsSent log)); reflexivity.
Qed.

Lemma setupPluginDefaults_incomplete_config_rejects_witness :
  setupPluginDefaults (fun _ => Resolves (Some (JObject
                         [(lit "configurePlugin", Example.fullConfig)])))
    (Some Example.keyOnlyConfig) []
  = (Threw (NewError (lit "Failed to update plugin configuration")),
     [] ++ [Sent (ConfigurePlugin PLUGIN_ID
                    (defaultedConfig Example.keyOnlyConfig))]).
Proof.
  apply (setupPluginDefaults_incomplete_config_rejects
           (fun _ => Resolves (Some (JObject
                       [(lit "configurePlugin", Example.fullConfig)])))
           Example.keyOnlyConfig []);
    [discriminate | reflexivity].
Defined.

(** X5.  The settings [initializePlugin] gets to work with are the
    stored configuration of the plugin, unchanged: when the chain
    [getPluginConfig(...).then(setupPluginDefaults)] resolves, it
    resolves with the [plugins] entry of the one [Configuration] answer,
    that entry already has truthy [recraftApiUrl], [recraftTagIconSize]
    and [recraftTagIconFormat], and nothing but the query was sent. *)
Theorem loadSettings_returns_stored_config
    (answers : nat -> Reply JsVal) (log : list Effect)
    (settings : JValue) (log' : list Effect) :
  loadSettings answers log = (Returned settings, log') ->
  log' = log ++ [Sent ConfigurationQuery]
  /\ (exists data configuration plugins,
         answers (requestsSent log) = Resolves (Some data) /\
         getProp (lit "configuration") data = Some configuration /\
         getProp (lit "plugins") configuration = Some plugins /\
         getProp PLUGIN_ID plugins = Some settings)
  /\ truthyOpt (getProp (lit "recraftApiUrl") settings) = true
  /\ truthyOpt (getProp (lit "recraftTagIconSize") settings) = true
  /\ truthyOpt (getProp (lit "recraftTagIconFormat") settings) = true.
Proof.
  unfold loadSettings, getPluginConfig, getPluginConfigs, callGQL.
  destruct (answers (requestsSent log)) as [[data|]|reason] eqn:Ea;
    try discriminate.
  destruct data; try discriminate.
  destruct (getProp (lit "configuration") (JObject members))
    as [configuration|] eqn:Ec; [|discriminate].
  destruct configuration; try discriminate.
  destruct (getProp (lit "plugins") (JObject members0))
    as [plugins|] eqn:Ep; [|discriminate].
  destruct plugins; try discriminate.
  fold PLUGIN_ID.
  destruct (getProp PLUGIN_ID (JObject members1)) as [config|] eqn:Eg;
    [|discriminate].
  unfold setupPluginDefaults.
  destruct config; try discriminate;
    try (unfold updatePluginConfig, callGQL;
         match goal with
         | |- context [if ?b then _ else _] => destruct b
         end;
         try destruct (answers _); discriminate).
  destruct (falsy (getProp (lit "recraftApiUrl") (JObject members2))
            || falsy (getProp (lit "recraftTagIconSize") (JObject members2))
            || falsy (getProp (lit "recraftTagIconFormat")
                              (JObject members2))) eqn:Hf.
  - unfold updatePluginConfig, callGQL.
    destruct (answers _); discriminate.
  - intros [= <- <-].
    apply orb_false_iff in Hf as [Hf H3].
    apply orb_false_iff in Hf as [H1 H2].
    unfold falsy in *. apply negb_false_iff in H1, H2, H3.
    split; [reflexivity|]. split; [|now repeat split].
    exists (JObject members), (JObject members0), (JObject members1).
    now repeat split.
Qed.

Lemma loadSettings_returns_stored_config_witness :
  [Sent ConfigurationQuery] = [] ++ [Sent ConfigurationQuery]
  /\ (exists data configuration plugins,
         Example.serverWith Example.configuredPlugins (requestsSent [])
         = Resolves (Some data) /\
         getProp (lit "configuration") data = Some configuration /\
         getProp (lit "plugins") configuration = Some plugins /\
         getProp PLUGIN_ID plugins = Some Example.fullConfig)
  /\ truthyOpt (getProp (lit "recraftApiUrl") Example.fullConfig) = true
  /\ truthyOpt (getProp (lit "recraftTagIconSize") Example.fullConfig) = true
  /\ truthyOpt (getProp (lit "recraftTagIconFormat") Example.fullConfig)
     = true.
Proof.
  apply (loadSettings_returns_stored_config
           (Example.serverWith Example.configuredPlugins) []
           Example.fullConfig [Sent ConfigurationQuery]).
  vm_compute. reflexivity.
Defined.

(** X6.  On an installation where the plugin has stored no configuration
    yet, [getPluginConfig] resolves with [undefined] and
    [setupPluginDefaults] rejects with a TypeError before it sends
    anything: the defaults are not written. *)
Theorem loadSettings_without_stored_config_throws
    (answers : nat -> Reply JsVal) (log : list Effect)
    (data configuration plugins : JValue) :
  answers (requestsSent log) = Resolves (Some data) ->
  getProp (lit "configuration") data = Some configuration ->
  getProp (lit "plugins") configuration = Some plugins ->
  getProp PLUGIN_ID plugins = None ->
  (plugins <> JNull ->
   getPluginConfig answers PLUGIN_ID log
   = (Returned None, log ++ [Sent ConfigurationQuery]))
  /\ loadSettings answers log
     = (Threw TypeError, log ++ [Sent ConfigurationQuery]).
Proof.
  intros Ea Ec Ep Eg.
  unfold loadSettings, getPluginConfig, getPluginConfigs, callGQL.
  fold PLUGIN_ID. rewrite Ea.
  destruct data; try discriminate. rewrite Ec.
  destruct configuration; try discriminate. rewrite Ep.
  destruct plugins; rewrite ?Eg; split; try reflexivity;
    intros H; try reflexivity; now contradiction H.
Qed.

Lemma loadSettings_without_stored_config_throws_witness :
  loadSettings (Example.serverWith Example.noPlugins) []
  = (Threw TypeError, [] ++ [Sent ConfigurationQuery]).
Proof.
  refine (proj2 (loadSettings_without_stored_config_throws
                   (Example.serverWith Example.noPlugins) []
                   (JObject [(lit "configuration",
                              JObject [(lit "plugins", Example.noPlugins)])])
                   (JObject [(lit "plugins", Example.noPlugins)])
                   Example.noPlugins _ _ _ _)); reflexivity.
Defined.

(* ================================================================== *)
(** * Saving the image: facts *)
(* ================================================================== *)

Lemma optProp_chain (k1 k2 : jsstring) (v : JsVal) :
  optProp k2 (optProp k1 v)
  = match optProp k1 v with
    | Some t => optProp k2 (Some t)
    | None => None
    end.
Proof. now destruct (optProp k1 v). Qed.

Lemma updateTagImage_unfold (answers : nat -> Reply JsVal)
                            (tagId imageUrl : JsVal) (tagName : jsstring)
                            (log : list Effect) :
  updateTagImage answers tagId imageUrl tagName log =
    let sent := log ++ [ConsoleLogUpdating tagId imageUrl;
                        Sent (TagUpdate tagId imageUrl)] in
    if stringifiesOpt tagId && stringifiesOpt imageUrl then
      match answers (requestsSent log) with
      | Resolves result =>
          if truthyOpt (optProp (lit "id")
                          (optProp (lit "tagUpdate") result))
          then
            match optProp (lit "tagUpdate") result with
            | Some tag =>
                (Returned tag, sent ++ [ToastSuccessGenerated tagName])
            | None =>
                (Threw (NewError (lit "Failed to update tag: " ++ tagName)),
                 sent ++ [ConsoleErrorFailedUpdate result])
            end
          else (Threw (NewError (lit "Failed to update tag: " ++ tagName)),
                sent ++ [ConsoleErrorFailedUpdate result])
      | Rejects reason => (Threw (GqlRejected reason), sent)
      end
    else (Threw TypeError, log).
Proof.
  unfold updateTagImage, callGQL. cbv zeta.
  destruct (stringifiesOpt tagId && stringifiesOpt imageUrl);
    [|reflexivity].
  replace (requestsSent (log ++ [ConsoleLogUpdating tagId imageUrl]))
    with (requestsSent log)
    by (rewrite requestsSent_app; cbn; lia).
  rewrite <- !app_assoc. cbn [app].
  destruct (answers (requestsSent log)) as [result|reason]; [|reflexivity].
  rewrite optProp_chain.
  destruct (optProp (lit "tagUpdate") result) as [tag|]; [|reflexivity].
  destruct (truthyOpt (optProp (lit "id") (Some tag)));
    now rewrite <- ?app_assoc.
Qed.



(** X7.  What [updateTagImage] resolves with is the [tagUpdate] member
    of the answer to its one [TagUpdate] mutation, an object with a
    truthy [id]; the success toast has been shown by then. *)
Theorem updateTagImage_resolves_with_identified_tag
    (answers : nat -> Reply JsVal) (tagId imageUrl : JsVal)
    (tagName : jsstring) (log : list Effect) (tag : JValue)
    (log' : list Effect) :
  updateTagImage answers tagId imageUrl tagName log = (Returned tag, log') ->
  truthyOpt (getProp (lit "id") tag) = true
  /\ (exists members, tag = JObject members)
  /\ (exists result,
        answers (requestsSent log) = Resolves (Some result) /\
        getProp (lit "tagUpdate") result = Some tag)
  /\ log' = log ++ [ConsoleLogUpdating tagId imageUrl;
                    Sent (TagUpdate tagId imageUrl);
                    ToastSuccessGenerated tagName].
Proof.
  rewrite updateTagImage_unfold. cbv zeta.
  destruct (stringifiesOpt tagId && stringifiesOpt imageUrl);
    [|discriminate].
  destruct (answers (requestsSent log)) as [result|reason] eqn:Ea;
    [|discriminate].
  rewrite optProp_chain.
  destruct (optProp (lit "tagUpdate") result) as [t|] eqn:Et;
    [|discriminate].
  destruct (truthyOpt (optProp (lit "id") (Some t))) eqn:Hid;
    [|discriminate].
  intros [= <- <-].
  assert (Hobj : exists members, t = JObject members).
  { destruct t; try discriminate. now eexists. }
  destruct Hobj as (members & ->). cbn [optProp] in Hid.
  split; [exact Hid|]. split; [now eexists|]. split.
  - destruct result as [[]|]; try discriminate. eexists. split; [reflexivity|].
    exact Et.
  - now rewrite <- app_assoc.
Qed.

Lemma updateTagImage_resolves_with_identified_tag_witness :
  truthyOpt (getProp (lit "id") Example.updatedTag) = true
  /\ (exists members, Example.updatedTag = JObject members)
  /\ (exists result,
        Example.tagUpdated (requestsSent []) = Resolves (Some result) /\
        getProp (lit "tagUpdate") result = Some Example.updatedTag)
  /\ [ConsoleLogUpdating (Some (JString (lit "42")))
        (Some (JString (lit "https://img/1.svg")));
      Sent (TagUpdate (Some (JString (lit "42")))
              (Some (JString (lit "https://img/1.svg"))));
      ToastSuccessGenerated (lit "Forest")]
     = [] ++ [ConsoleLogUpdating (Some (JString (lit "42")))
                (Some (JString (lit "https://img/1.svg")));
              Sent (TagUpdate (Some (JString (lit "42")))
                      (Some (JString (lit "https://img/1.svg"))));
              ToastSuccessGenerated (lit "Forest")].
Proof.
  apply (updateTagImage_resolves_with_identified_tag
           Example.tagUpdated (Some (JString (lit "42")))
           (Some (JString (lit "https://img/1.svg"))) (lit "Forest") []
           Example.updatedTag).
  vm_compute. reflexivity.
Defined.

(** X8.  For a [tagId] and an [imageUrl] that can be converted to
    strings (as strings, numbers and [undefined] can): when the server
    answers and [result?.tagUpdate?.id] is not truthy (no answer data,
    [null], no [tagUpdate], a [null] one, an [id] that is missing or
    empty), [updateTagImage] logs the answer and rejects with "Failed to
    update tag: <tagName>". *)
Theorem updateTagImage_rejects_without_identified_tag
    (answers : nat -> Reply JsVal) (tagId imageUrl : JsVal)
    (tagName : jsstring) (log : list Effect) (result : JsVal) :
  stringifiesOpt tagId = true ->
  stringifiesOpt imageUrl = true ->
  answers (requestsSent log) = Resolves result ->
  truthyOpt (optProp (lit "id") (optProp (lit "tagUpdate") result)) = false ->
  updateTagImage answers tagId imageUrl tagName log
  = (Threw (NewError (lit "Failed to update tag: " ++ tagName)),
     log ++ [ConsoleLogUpdating tagId imageUrl;
             Sent (TagUpdate tagId imageUrl);
             ConsoleErrorFailedUpdate result]).
Proof.
  intros Ht Hi Ea Hid. rewrite updateTagImage_unfold. cbv zeta.
  rewrite Ht, Hi, Ea, Hid. now rewrite <- app_assoc.
Qed.

Lemma updateTagImage_rejects_without_identified_tag_witness :
  updateTagImage Example.tagNotUpdated (Some (JString (lit "42")))
    (Some (JString (lit "https://img/1.svg"))) (lit "Forest") []
  = (Threw (NewError (lit "Failed to update tag: " ++ lit "Forest")),
     [] ++ [ConsoleLogUpdating (Some (JString (lit "42")))
              (Some (JString (lit "https://img/1.svg")));
            Sent (TagUpdate (Some (JString (lit "42")))
                    (Some (JString (lit "https://img/1.svg"))));
            ConsoleErrorFailedUpdate
              (Some (JObject [(lit "tagUpdate", JNull)]))]).
Proof.
  apply (updateTagImage_rejects_without_identified_tag
           Example.tagNotUpdated (Some (JString (lit "42")))
           (Some (JString (lit "https://img/1.svg"))) (lit "Forest") []
           (Some (JObject [(lit "tagUpdate", JNull)])));
    reflexivity.
Defined.


(* ================================================================== *)
(** * Fetching from the modal: facts *)
(* ================================================================== *)

Lemma fetchTagIcon_trace_head (env : Env) (tagName : jsstring) (tr : Trace) :
  exists rest,
    snd (fetchTagIcon env tagName tr)
    = tr ++ DateNow (clock env (clockReads tr))
         :: RunPluginTask PLUGIN_ID task
              [(lit "name", operation); (lit "tagName", tagName)]
         :: rest.
Proof.
  rewrite fetchTagIcon_unfold. cbv zeta.
  set (tr1 := tr ++ [_; _]).
  assert (E1 : forall rest,
             tr1 ++ rest
             = tr ++ DateNow (clock env (clockReads tr))
                  :: RunPluginTask PLUGIN_ID task
                       [(lit "name", operation); (lit "tagName", tagName)]
                  :: rest)
    by (intros; unfold tr1; now rewrite <- app_assoc).
  destruct (runTaskReply env (submissions tr)).
  - destruct (tryPollLogs_extends env (prefixOf operation)
                (clock env (clockReads tr)) tagName 5
                (Z.to_nat (Z.max 1 5)) 0 tr1) as (ext & Eext).
    fold (pollLogsWithRetries env (prefixOf operation)
            (clock env (clockReads tr)) tagName 5) in Eext.
    destruct (pollLogsWithRetries env (prefixOf operation)
                (clock env (clockReads tr)) tagName 5 tr1) as [res tr2].
    cbn [snd] in Eext. subst tr2.
    destruct res; cbn [snd]; rewrite <- ?app_assoc, E1; eexists;
      reflexivity.
  - exists []. now rewrite <- E1, app_nil_r.
Qed.

(** X10.  When the task runner rejects the submission, [performTagFetch]
    never comes back: its promise stays unsettled and the modal is left
    showing the spinner, [loading] still [true], with no error logged
    and no image set. *)
Theorem performTagFetch_rejected_submission_spins_forever
    (env : Env) (customPrompt : option jsstring) (ui : Ui) (tr : Trace)
    (reason : jsstring) :
  runTaskReply env (submissions tr) = Rejects reason ->
  let '(outcome, ui', tr') := performTagFetch env customPrompt ui tr in
  outcome = Unsettled
  /\ loading ui' = true /\ custom ui' = false
  /\ modalBody ui' = LoadingIndicator
  /\ imageUrl ui' = imageUrl ui /\ data ui' = data ui
  /\ handlerErrors ui' = handlerErrors ui
  /\ submissions tr' = submissions tr + 1 /\ logQueries tr' = logQueries tr.
Proof.
  intros H. unfold performTagFetch. rewrite fetchTagIcon_unfold. cbv zeta.
  rewrite H. cbn. repeat split; count_trace; lia.
Qed.

Lemma performTagFetch_rejected_submission_spins_forever_witness :
  let '(outcome, ui', tr') :=
    performTagFetch Scenario.rejectedSubmission None Example.justOpened [] in
  outcome = Unsettled
  /\ loading ui' = true /\ custom ui' = false
  /\ modalBody ui' = LoadingIndicator
  /\ imageUrl ui' = imageUrl Example.justOpened
  /\ data ui' = data Example.justOpened
  /\ handlerErrors ui' = handlerErrors Example.justOpened
  /\ submissions tr' = submissions [] + 1 /\ logQueries tr' = logQueries [].
Proof.
  apply (performTagFetch_rejected_submission_spins_forever
           Scenario.rejectedSubmission None Example.justOpened []
           (lit "Failed to fetch")).
  reflexivity.
Defined.

(** X11.  When the submission is accepted, [performTagFetch] always
    resolves and ends with the spinner off and the custom prompt
    hidden, and what it leaves follows from how its [fetchTagIcon]
    (called with the prompt or the tag name) ended, which is by a value
    or by a rejection:
    - with a URL: that URL, which is truthy, is the [imageUrl] state and
      the [imageUrl] of the tag data, the modal previews it, and nothing
      is logged as an error;
    - with a rejection: that rejection is logged with [console.error],
      and image and tag data are as they were.
    The trace is the one [fetchTagIcon] left. *)
Theorem performTagFetch_accepted_submission_settles
    (env : Env) (customPrompt : option jsstring) (ui : Ui) (tr : Trace)
    (ack : unit) :
  runTaskReply env (submissions tr) = Resolves ack ->
  let '(outcome, ui', tr') := performTagFetch env customPrompt ui tr in
  outcome = Fulfilled tt
  /\ loading ui' = false /\ custom ui' = false
  /\ display ui' = display ui
  /\ match fetchTagIcon env (iconQueryOf customPrompt (data ui)) tr with
     | (Fulfilled url, trF) =>
         tr' = trF
         /\ truthyOpt url = true
         /\ imageUrl ui' = url
         /\ data ui' = withImageUrl url (data ui)
         /\ modalBody ui' = ImagePreview url
         /\ handlerErrors ui' = handlerErrors ui
     | (Rejected e, trF) =>
         tr' = trF
         /\ imageUrl ui' = imageUrl ui
         /\ data ui' = data ui
         /\ handlerErrors ui' = handlerErrors ui ++ [ErrorFetchingIcon e]
     | (Unsettled, _) => False
     | (OutOfFuel, _) => False
     end.
Proof.
  intros H. unfold performTagFetch.
  destruct (fetchTagIcon_accepted_settles env
              (iconQueryOf customPrompt (data ui)) tr ack H)
    as [(url & E & Hurl) | (e & E)];
    destruct (fetchTagIcon env (iconQueryOf customPrompt (data ui)) tr)
      as [res trF]; cbn [fst] in E; subst res; cbn.
  - unfold modalBody. cbn. rewrite Hurl. now repeat split.
  - now repeat split.
Qed.

Lemma performTagFetch_accepted_submission_settles_witness :
  let '(outcome, ui', tr') :=
    performTagFetch Scenario.slowTask None Example.justOpened [] in
  outcome = Fulfilled tt
  /\ loading ui' = false /\ custom ui' = false
  /\ display ui' = display Example.justOpened
  /\ match fetchTagIcon Scenario.slowTask
             (iconQueryOf None (data Example.justOpened)) [] with
     | (Fulfilled url, trF) =>
         tr' = trF
         /\ truthyOpt url = true
         /\ imageUrl ui' = url
         /\ data ui' = withImageUrl url (data Example.justOpened)
         /\ modalBody ui' = ImagePreview url
         /\ handlerErrors ui' = handlerErrors Example.justOpened
     | (Rejected e, trF) =>
         tr' = trF
         /\ imageUrl ui' = imageUrl Example.justOpened
         /\ data ui' = data Example.justOpened
         /\ handlerErrors ui'
            = handlerErrors Example.justOpened ++ [ErrorFetchingIcon e]
     | (Unsettled, _) => False
     | (OutOfFuel, _) => False
     end.
Proof.
  apply (performTagFetch_accepted_submission_settles
           Scenario.slowTask None Example.justOpened [] tt).
  reflexivity.
Defined.

(** X12.  The prompt the task is submitted with is the custom prompt
    when that is a non-empty string, and the name of the tag otherwise:
    an omitted prompt and an empty one both fall back to the tag name.
    It is the [tagName] argument of the one [RunPluginTask] that
    [performTagFetch] sends first. *)
Theorem performTagFetch_prompt_falls_back_to_tag_name
    (env : Env) (customPrompt : option jsstring) (ui : Ui) (tr : Trace) :
  (exists rest,
      snd (performTagFetch env customPrompt ui tr)
      = tr ++ DateNow (clock env (clockReads tr))
           :: RunPluginTask PLUGIN_ID task
                [(lit "name", operation);
                 (lit "tagName", iconQueryOf customPrompt (data ui))]
           :: rest)
  /\ iconQueryOf None (data ui) = tagName (data ui)
  /\ iconQueryOf (Some []) (data ui) = tagName (data ui)
  /\ (forall prompt, prompt <> [] ->
                     iconQueryOf (Some prompt) (data ui) = prompt).
Proof.
  split; [|split; [reflexivity | split; [reflexivity|]]].
  - destruct (fetchTagIcon_trace_head env
                (iconQueryOf customPrompt (data ui)) tr) as (rest & E).
    exists rest. unfold performTagFetch.
    destruct (fetchTagIcon env (iconQueryOf customPrompt (data ui)) tr)
      as [[url|e| |] tr']; exact E.
  - intros [|c s] Hne; [congruence | reflexivity].
Qed.

Lemma performTagFetch_prompt_falls_back_to_tag_name_witness :
  lit "oak leaf" <> [] /\
  iconQueryOf (Some (lit "oak leaf")) (data Example.justOpened)
  = lit "oak leaf".
Proof.
  split; [discriminate|].
  apply (proj2 (proj2 (proj2
           (performTagFetch_prompt_falls_back_to_tag_name
              Scenario.rejectedSubmission None Example.justOpened [])))).
  discriminate.
Defined.

(* ================================================================== *)
(** * The orchestrator end to end: facts *)
(* ================================================================== *)

Lemma sumZ_app (a b : list Z) : sumZ (a ++ b) = (sumZ a + sumZ b)%Z.
Proof.
  induction a as [|x a IH]; simpl; [reflexivity|]. rewrite IH. lia.
Qed.

Lemma pollLogsForMessage_fulfilled_source
    (env : Env) (prefix : jsstring) (surplus : list JsArg) (tr : Trace)
    (body : jsstring) (tr' : Trace) :
  pollLogsForMessage env prefix surplus tr = (Fulfilled body, tr') ->
  exists k logs entry,
    logQueries tr <= k /\ logQueries tr' = S k /\
    clockReads tr' = S (clockReads tr) /\
    logsReply env k = Resolves logs /\ In entry logs /\
    qualifies prefix (clock env (clockReads tr)) entry = true /\
    scanLogs prefix (clock env (clockReads tr)) logs = Some body /\
    body = returnedBody prefix entry.
Proof.
  intros H. rewrite pollLogsForMessage_unfold in H.
  apply pollLoop_fulfilled in H as (n & logs & _ & _ & Hl & Hs & ->).
  pose proof Hs as Hs'.
  apply scanLogs_first_match in Hs as (b & e & a & -> & _ & Hq & ->).
  exists (logQueries (tr ++ [DateNow (clock env (clockReads tr));
                             SetTimeout 500]) + n), (b ++ e :: a), e.
  repeat split; try assumption.
  - count_trace. lia.
  - count_trace. lia.
  - count_trace. lia.
  - apply in_elt.
Qed.

(** Where the value of a successful retry loop comes from: the last
    query of the run fetched the snapshot, and the last clock reading
    of the run, the one the successful poll took, is what its entries
    were compared with. *)
Lemma tryPollLogs_fulfilled_source
    (env : Env) (prefix : jsstring) (reqTime : Z) (tagName : jsstring)
    (maxRetries : Z) (fuel : nat) :
  forall (attempts : Z) (tr : Trace) (url : JsVal) (tr' : Trace),
    tryPollLogs env fuel prefix reqTime tagName maxRetries attempts tr
    = (Fulfilled url, tr') ->
    exists k j logs entry parsed,
      logQueries tr <= k /\ logQueries tr' = S k /\
      clockReads tr <= j /\ clockReads tr' = S j /\
      logsReply env k = Resolves logs /\ In entry logs /\
      qualifies prefix (clock env j) entry = true /\
      scanLogs prefix (clock env j) logs
      = Some (returnedBody prefix entry) /\
      parseResult (returnedBody prefix entry) = Some parsed /\
      getUrl parsed = url /\
      stringifiesOpt url = true.
Proof.
  induction fuel as [|fuel IH]; intros attempts tr url tr'; [discriminate|].
  cbn [tryPollLogs].
  pose proof (pollLogsForMessage_counts env prefix
                [ArgString (lit "Info"); ArgNumber reqTime] tr) as Hc.
  cbv zeta in Hc.
  destruct (pollLogsForMessage env prefix
              [ArgString (lit "Info"); ArgNumber reqTime] tr)
    as [res tr1] eqn:Ep.
  cbn [snd] in Hc.
  assert (Hcatch : forall error,
    (if (maxRetries <=? attempts + 1)%Z
     then (Rejected error, tr1 ++ [ConsoleWarnRetry (attempts + 1) tagName])
     else tryPollLogs env fuel prefix reqTime tagName maxRetries
            (attempts + 1)
            (tr1 ++ [ConsoleWarnRetry (attempts + 1) tagName]))
    = (Fulfilled url, tr') ->
    exists k j logs entry parsed,
      logQueries tr <= k /\ logQueries tr' = S k /\
      clockReads tr <= j /\ clockReads tr' = S j /\
      logsReply env k = Resolves logs /\ In entry logs /\
      qualifies prefix (clock env j) entry = true /\
      scanLogs prefix (clock env j) logs
      = Some (returnedBody prefix entry) /\
      parseResult (returnedBody prefix entry) = Some parsed /\
      getUrl parsed = url /\
      stringifiesOpt url = true).
  { intros error. destruct (maxRetries <=? attempts + 1)%Z; [discriminate|].
    intros H.
    apply IH in H as (k & j & logs & e & p & Hk & Hk' & Hj & Hrest).
    exists k, j, logs, e, p.
    split; [|split; [exact Hk' | split; [|exact Hrest]]].
    - revert Hk. count_trace. lia.
    - revert Hj. count_trace. lia. }
  destruct res as [result|error| |]; try discriminate.
  - destruct (parseResult result) as [parsed|] eqn:Eparse; [|apply Hcatch].
    destruct (truthyOpt (parsedAndUrl parsed)); [|discriminate].
    destruct (stringifiesOpt (getUrl parsed)) eqn:Hstr; [|apply Hcatch].
    intros [= <- <-].
    apply pollLogsForMessage_fulfilled_source in Ep
      as (k & logs & e & Hk & Hk' & Hj & Hl & Hin & Hq & Hs & ->).
    exists k, (clockReads tr), logs, e, parsed.
    repeat split; try assumption; count_trace; lia.
  - apply Hcatch.
Qed.

(** X13.  Whatever [fetchTagIcon] resolves with is a truthy value, one
    that converts to a string, read out of the log by the poll that
    succeeded, which is the last one: it is the [url] member of the JSON
    body of the first entry that qualifies in the snapshot the last log
    query of the run fetched (a query made during this call), where
    entries qualify by carrying the prefix and being newer than the last
    clock reading of the run, the one that poll took when it started,
    after the reading [fetchTagIcon] takes itself. *)
Theorem fetchTagIcon_resolves_with_logged_url
    (env : Env) (tagName : jsstring) (tr : Trace) (url : JsVal)
    (tr' : Trace) :
  fetchTagIcon env tagName tr = (Fulfilled url, tr') ->
  truthyOpt url = true
  /\ stringifiesOpt url = true
  /\ exists k j logs entry parsed,
       logQueries tr <= k /\ logQueries tr' = S k /\
       clockReads tr < j /\ clockReads tr' = S j /\
       logsReply env k = Resolves logs /\ In entry logs /\
       qualifies (prefixOf operation) (clock env j) entry = true /\
       scanLogs (prefixOf operation) (clock env j) logs
       = Some (returnedBody (prefixOf operation) entry) /\
       parseResult (returnedBody (prefixOf operation) entry) = Some parsed /\
       getUrl parsed = url.
Proof.
  rewrite fetchTagIcon_unfold. cbv zeta.
  destruct (runTaskReply env (submissions tr)); [|discriminate].
  unfold pollLogsWithRetries.
  destruct (tryPollLogs env (Z.to_nat (Z.max 1 5)) (prefixOf operation)
              (clock env (clockReads tr)) tagName 5 0
              (tr ++ [DateNow (clock env (clockReads tr));
                      RunPluginTask PLUGIN_ID task
                        [(lit "name", operation); (lit "tagName", tagName)]]))
    as [[u|e| |] tr2] eqn:Et; try discriminate.
  intros [= <- <-]. split.
  - eapply tryPollLogs_fulfilled_truthy. exact Et.
  - apply tryPollLogs_fulfilled_source in Et
      as (k & j & logs & e & p & Hk & Hk' & Hj & Hj' & Hl & Hin & Hq & Hs
          & Hp & Hu & Hstr).
    split; [exact Hstr|].
    exists k, j, logs, e, p. repeat split; try assumption.
    + revert Hk. count_trace. lia.
    + count_trace. lia.
    + revert Hj. count_trace. lia.
    + count_trace. lia.
Qed.

Lemma fetchTagIcon_resolves_with_logged_url_witness :
  truthyOpt (Some (JString (lit "https://img/1.svg"))) = true
  /\ stringifiesOpt (Some (JString (lit "https://img/1.svg"))) = true
  /\ exists k j logs entry parsed,
       logQueries [] <= k /\
       logQueries (snd (fetchTagIcon Scenario.slowTask Scenario.forest []))
       = S k /\
       clockReads [] < j /\
       clockReads (snd (fetchTagIcon Scenario.slowTask Scenario.forest []))
       = S j /\
       logsReply Scenario.slowTask k = Resolves logs /\ In entry logs /\
       qualifies (prefixOf operation) (clock Scenario.slowTask j) entry
       = true /\
       scanLogs (prefixOf operation) (clock Scenario.slowTask j) logs
       = Some (returnedBody (prefixOf operation) entry) /\
       parseResult (returnedBody (prefixOf operation) entry) = Some parsed /\
       getUrl parsed = Some (JString (lit "https://img/1.svg")).
Proof.
  apply (fetchTagIcon_resolves_with_logged_url
           Scenario.slowTask Scenario.forest []
           (Some (JString (lit "https://img/1.svg")))
           (snd (fetchTagIcon Scenario.slowTask Scenario.forest []))).
  vm_compute. reflexivity.
Defined.

Lemma neverLogged_miss (env : Env) (prefix : jsstring) (T : Z) (k : nat) :
  neverLogged env prefix -> missAt env prefix T k.
Proof.
  intros H. destruct (H k) as (logs & Hl & Hf).
  exists logs. split; [exact Hl|]. clear Hl.
  induction logs as [|e logs IH]; [reflexivity|].
  simpl in Hf. apply andb_true_iff in Hf as [He Hf].
  simpl. unfold qualifies. apply negb_true_iff in He. rewrite He.
  rewrite andb_false_r. now apply IH.
Qed.

Lemma pollLogsForMessage_never_logged
    (env : Env) (prefix : jsstring) (surplus : list JsArg) (tr : Trace) :
  neverLogged env prefix ->
  pollLogsForMessage env prefix surplus tr
  = (Rejected (pollTimeout prefix),
     tr ++ DateNow (clock env (clockReads tr)) :: SetTimeout 500
        :: attemptsTrace 0 5).
Proof.
  intros H. rewrite pollLogsForMessage_unfold, pollLoop_all_miss.
  - now rewrite <- app_assoc.
  - reflexivity.
  - intros j _. now apply neverLogged_miss.
Qed.

Lemma sumZ_timeouts_poll (T : Z) :
  sumZ (timeouts (DateNow T :: SetTimeout 500 :: attemptsTrace 0 5))
  = 3600%Z.
Proof. reflexivity. Qed.

Lemma sumZ_timeouts_warn (attempts : Z) (tagName : jsstring) :
  sumZ (timeouts [ConsoleWarnRetry attempts tagName]) = 0%Z.
Proof. reflexivity. Qed.

Lemma tryPollLogs_never_logged
    (env : Env) (prefix : jsstring) (reqTime : Z) (tagName : jsstring)
    (maxRetries : Z) (fuel : nat) :
  neverLogged env prefix ->
  forall (attempts : Z) (tr : Trace),
    (attempts + Z.of_nat (S fuel) = maxRetries)%Z ->
    let r := tryPollLogs env (S fuel) prefix reqTime tagName maxRetries
               attempts tr in
    fst r = Rejected (pollTimeout prefix)
    /\ logQueries (snd r) = logQueries tr + 5 * S fuel
    /\ clockReads (snd r) = clockReads tr + S fuel
    /\ submissions (snd r) = submissions tr
    /\ sumZ (timeouts (snd r))
       = (sumZ (timeouts tr) + 3600 * Z.of_nat (S fuel))%Z.
Proof.
  intros Hn. induction fuel as [|fuel IH]; intros attempts tr Ha; cbv zeta.
  - cbn [tryPollLogs]. rewrite (pollLogsForMessage_never_logged _ _ _ _ Hn).
    replace (maxRetries <=? attempts + 1)%Z with true
      by (symmetry; apply Z.leb_le; lia).
    cbn [fst snd].
    rewrite !timeouts_app, !sumZ_app, sumZ_timeouts_poll, sumZ_timeouts_warn.
    split; [reflexivity|]. count_trace. repeat split; lia.
  - remember (S fuel) as f eqn:Ef.
    cbn [tryPollLogs]. rewrite (pollLogsForMessage_never_logged _ _ _ _ Hn).
    replace (maxRetries <=? attempts + 1)%Z with false
      by (symmetry; apply Z.leb_gt; lia).
    specialize (IH (attempts + 1)%Z
                   ((tr ++ DateNow (clock env (clockReads tr))
                        :: SetTimeout 500 :: attemptsTrace 0 5)
                      ++ [ConsoleWarnRetry (attempts + 1) tagName])
                   ltac:(lia)).
    cbv zeta in IH. destruct IH as (I1 & I2 & I3 & I4 & I5).
    split; [exact I1|].
    rewrite I2, I3, I4, I5.
    rewrite !timeouts_app, !sumZ_app, sumZ_timeouts_poll, sumZ_timeouts_warn.
    clear I1 I2 I3 I4 I5. count_trace. repeat split; lia.
Qed.

(** X14.  When the submission is accepted and no log line ever carries
    the prefix, [fetchTagIcon] gives up with "Poll logs failed for
    message: <prefix>" after exactly five polls of five queries each, 25
    queries in all, having set timers for 5 x (500 + 3100) = 18000 ms,
    and having submitted the task once. *)
Theorem fetchTagIcon_gives_up_after_25_queries
    (env : Env) (tagName : jsstring) (tr : Trace) (ack : unit) :
  runTaskReply env (submissions tr) = Resolves ack ->
  neverLogged env (prefixOf operation) ->
  let r := fetchTagIcon env tagName tr in
  fst r = Rejected (pollTimeout (prefixOf operation))
  /\ logQueries (snd r) = logQueries tr + 25
  /\ clockReads (snd r) = clockReads tr + 6
  /\ submissions (snd r) = submissions tr + 1
  /\ sumZ (timeouts (snd r)) = (sumZ (timeouts tr) + 18000)%Z.
Proof.
  intros Hack Hn. cbv zeta. rewrite fetchTagIcon_unfold. cbv zeta.
  rewrite Hack. unfold pollLogsWithRetries.
  pose proof (tryPollLogs_never_logged env (prefixOf operation)
                (clock env (clockReads tr)) tagName 5 4 Hn 0
                (tr ++ [DateNow (clock env (clockReads tr));
                        RunPluginTask PLUGIN_ID task
                          [(lit "name", operation);
                           (lit "tagName", tagName)]])
                eq_refl) as H.
  cbv zeta in H. change (Z.to_nat (Z.max 1 5)) with 5.
  destruct (tryPollLogs env 5 (prefixOf operation)
              (clock env (clockReads tr)) tagName 5 0 _) as [res tr2].
  cbn [fst snd] in H. destruct H as (-> & H2 & H3 & H4 & H5).
  cbn [fst snd]. split; [reflexivity|].
  rewrite !timeouts_app, !sumZ_app, H5, !timeouts_app, !sumZ_app.
  clear H5.
  change (sumZ (timeouts [DateNow (clock env (clockReads tr));
                          RunPluginTask PLUGIN_ID task
                            [(lit "name", operation);
                             (lit "tagName", tagName)]])) with 0%Z.
  change (sumZ (timeouts [ToastError tagName; ConsoleErrorNoImage tagName]))
    with 0%Z.
  count_trace. repeat split; lia.
Qed.

Lemma fetchTagIcon_gives_up_after_25_queries_witness :
  let r := fetchTagIcon Scenario.silent Scenario.forest [] in
  fst r = Rejected (pollTimeout (prefixOf operation))
  /\ logQueries (snd r) = logQueries [] + 25
  /\ clockReads (snd r) = clockReads [] + 6
  /\ submissions (snd r) = submissions [] + 1
  /\ sumZ (timeouts (snd r)) = (sumZ (timeouts []) + 18000)%Z.
Proof.
  apply (fetchTagIcon_gives_up_after_25_queries
           Scenario.silent Scenario.forest [] tt).
  - reflexivity.
  - intros k. exists []. split; reflexivity.
Defined.

(* ================================================================== *)
(** * Regular expressions: facts *)
(* ================================================================== *)

Lemma existsb_eqb_In (c : N) (l : jsstring) :
  existsb (N.eqb c) l = true <-> In c l.
Proof.
  rewrite existsb_exists. split.
  - intros (x & Hin & E). apply N.eqb_eq in E. now subst.
  - intros H. exists c. split; [exact H | apply N.eqb_refl].
Qed.

Lemma In_distinctInOrder (x : N) (s : jsstring) :
  forall seen,
    In x (distinctInOrder seen s) <-> In x s /\ ~ In x seen.
Proof.
  induction s as [|c s IH]; intros seen; simpl; [tauto|].
  destruct (existsb (N.eqb c) seen) eqn:E.
  - apply existsb_eqb_In in E. rewrite IH. split.
    + tauto.
    + intros [[-> | H] Hn]; [contradiction | tauto].
  - assert (Hc : ~ In c seen).
    { intros H. apply existsb_eqb_In in H. congruence. }
    simpl. rewrite IH. simpl. split.
    + intros [-> | [H Hn]]; [tauto|]. split; [tauto|]. intros H'. apply Hn.
      now right.
    + intros [[-> | H] Hn]; [now left|].
      destruct (N.eq_dec c x) as [-> | Hne]; [now left|].
      right. split; [exact H|]. intros [-> | H']; tauto.
Qed.

Lemma two_members_length (a b : N) (l : jsstring) :
  In a l -> In b l -> a <> b -> 2 <= length l.
Proof.
  destruct l as [|x [|y l]]; simpl; try tauto; [|lia].
  intros [-> | []] [-> | []]. congruence.
Qed.

Lemma joined_flags_invalid (chars : jsstring) :
  2 <= length chars -> flagsValid (joinWithComma chars) = false.
Proof.
  destruct chars as [|c1 [|c2 rest]]; simpl; try lia. intros _.
  unfold flagsValid.
  replace (forallb isFlag (c1 :: 44%N :: _)) with false; [reflexivity|].
  simpl. now rewrite andb_false_r.
Qed.

(** X15.  [concatRegexp] throws a SyntaxError whenever the two regular
    expressions carry two different flags between them (as [g] and [i],
    on one of them or one each): the flags are joined with commas, and
    no pattern can make up for that. *)
Theorem concatRegexp_two_flags_throws
    (patternValid : jsstring -> jsstring -> bool) (reg exp : RegExp)
    (a b : N) :
  In a (flags reg ++ flags exp) ->
  In b (flags reg ++ flags exp) ->
  a <> b ->
  concatRegexp patternValid reg exp = SyntaxError.
Proof.
  intros Ha Hb Hab. unfold concatRegexp, newRegExp.
  rewrite joined_flags_invalid; [reflexivity|].
  apply (two_members_length a b); [| |exact Hab];
    apply In_distinctInOrder; split; try assumption; intros [].
Qed.

Lemma concatRegexp_two_flags_throws_witness :
  concatRegexp Example.anyPattern Example.originRegExp
    Example.globalIgnoreCase = SyntaxError.
Proof.
  apply (concatRegexp_two_flags_throws Example.anyPattern
           Example.originRegExp Example.globalIgnoreCase 103%N 105%N).
  - simpl. tauto.
  - simpl. tauto.
  - discriminate.
Defined.

Lemma distinctInOrder_all_seen (c : N) (s : jsstring) :
  (forall x, In x s -> x = c) -> distinctInOrder [c] s = [].
Proof.
  induction s as [|x s IH]; intros H; simpl; [reflexivity|].
  rewrite (H x (or_introl eq_refl)), N.eqb_refl. simpl.
  apply IH. intros y Hy. apply H. now right.
Qed.

Lemma flagsValid_single (c : N) : flagsValid [c] = isFlag c.
Proof.
  unfold flagsValid. cbn [forallb noRepeat existsb].
  destruct (117 =? c)%N eqn:E1; destruct (118 =? c)%N eqn:E2;
    cbn [negb andb orb]; rewrite ?andb_true_r; try reflexivity.
  apply N.eqb_eq in E1, E2. congruence.
Qed.

(** X16.  When the two regular expressions carry at most one flag
    between them, however often, [concatRegexp] builds the regular
    expression of the two sources put together under that one flag (or
    under none): a flag both of them have is not doubled. *)
Theorem concatRegexp_one_flag_builds
    (patternValid : jsstring -> jsstring -> bool) (reg exp : RegExp) :
  (forall a b, In a (flags reg ++ flags exp) ->
               In b (flags reg ++ flags exp) -> a = b) ->
  let one := match flags reg ++ flags exp with
             | [] => []
             | c :: _ => [c]
             end in
  concatRegexp patternValid reg exp
  = newRegExp patternValid (source reg ++ source exp) one
  /\ (forallb isFlag (flags reg ++ flags exp) = true ->
      patternValid (source reg ++ source exp) one = true ->
      concatRegexp patternValid reg exp
      = Constructed (source reg ++ source exp) one).
Proof.
  intros Hsame. cbv zeta. unfold concatRegexp.
  assert (E : joinWithComma (distinctInOrder [] (flags reg ++ flags exp))
              = match flags reg ++ flags exp with
                | [] => []
                | c :: _ => [c]
                end).
  { destruct (flags reg ++ flags exp) as [|c s]; [reflexivity|].
    simpl. rewrite distinctInOrder_all_seen; [reflexivity|].
    intros x Hx. apply Hsame; [now right | now left]. }
  rewrite E. split; [reflexivity|].
  intros Hf Hp. unfold newRegExp.
  destruct (flags reg ++ flags exp) as [|c s]; cbv iota in *.
  - now rewrite Hp.
  - rewrite Hp. simpl in Hf. apply andb_true_iff in Hf as [Hc _].
    now rewrite flagsValid_single, Hc.
Qed.

Lemma concatRegexp_one_flag_builds_witness :
  concatRegexp Example.anyPattern Example.ignoreCase Example.ignoreCase
  = Constructed (source Example.ignoreCase ++ source Example.ignoreCase)
                (lit "i").
Proof.
  refine (proj2 (concatRegexp_one_flag_builds Example.anyPattern
                   Example.ignoreCase Example.ignoreCase _) _ _);
    try reflexivity.
  simpl. intros a b [<- | [<- | []]] [<- | [<- | []]]; reflexivity.
Defined.

(* ================================================================== *)
(** * The DOM helpers: facts *)
(* ================================================================== *)

Lemma ancestors_head (el : Element) :
  exists rest, ancestors el = el :: rest.
Proof. destruct el; eexists; reflexivity. Qed.

(** X17.  [getClosestAncestor] returns an element exactly when the chain
    that starts at [el] and climbs from parent to parent reaches an
    element matching the selector before any element that matches the
    stop selector without matching the selector; it returns the first
    such element.  An element that matches both selectors is returned,
    and an empty or omitted stop selector stops nothing. *)
Theorem getClosestAncestor_first_match_before_stop
    (matches : Element -> jsstring -> bool) (el : Element)
    (selector : jsstring) (stopSelector : option jsstring) (a : Element) :
  getClosestAncestor matches (Some el) selector stopSelector = Some a <->
  exists before after,
    ancestors el = before ++ a :: after /\
    matches a selector = true /\
    forallb (fun x => negb (matches x selector)
                      && negb (stopsAt matches stopSelector x)) before
    = true.
Proof.
  cbn [getClosestAncestor]. split.
  - induction el as [n | n p IH]; cbn [closestFrom].
    + destruct (matches (topElement n) selector) eqn:Hm.
      * intros [= <-]. now exists [], [].
      * now destruct (stopsAt matches stopSelector (topElement n)).
    + destruct (matches (childElement n p) selector) eqn:Hm.
      * intros [= <-]. exists [], (ancestors p). now repeat split.
      * destruct (stopsAt matches stopSelector (childElement n p)) eqn:Hs;
          [discriminate|].
        intros H. apply IH in H as (before & after & E & Ha & Hb).
        exists (childElement n p :: before), after.
        cbn [ancestors app forallb]. rewrite E, Hm, Hs, Hb.
        now repeat split.
  - intros (before & after & E & Ha & Hb). revert el E.
    induction before as [|x before IH]; intros el E.
    + destruct (ancestors_head el) as (rest & Er). rewrite Er in E.
      injection E as <- _. destruct el; cbn [closestFrom]; now rewrite Ha.
    + cbn [forallb] in Hb. apply andb_true_iff in Hb as [Hx Hb].
      apply andb_true_iff in Hx as [Hm Hs].
      apply negb_true_iff in Hm, Hs.
      destruct el as [n | n p]; cbn [ancestors] in E.
      * destruct before; discriminate.
      * injection E as <- E. cbn [closestFrom]. rewrite Hm, Hs.
        now apply IH.
Qed.

Lemma getClosestAncestor_first_match_before_stop_witness :
  exists before after,
    ancestors Example.button = before ++ Example.toolbar :: after /\
    Example.matchesNumber Example.toolbar (lit "1") = true /\
    forallb (fun x => negb (Example.matchesNumber x (lit "1"))
                      && negb (stopsAt Example.matchesNumber
                                       (Some (lit "0")) x)) before
    = true.
Proof.
  apply (proj1 (getClosestAncestor_first_match_before_stop
                  Example.matchesNumber Example.button (lit "1")
                  (Some (lit "0")) Example.toolbar)).
  reflexivity.
Defined.

(* ================================================================== *)
(** * Sorting the children of a node: facts *)
(* ================================================================== *)

Lemma jsstring_eqb_eq (a b : jsstring) :
  JsString.eqb a b = true <-> a = b.
Proof.
  revert b. induction a as [|x a IH]; intros [|y b]; simpl;
    try (split; [discriminate | discriminate]); [tauto|].
  rewrite andb_true_iff, N.eqb_eq, IH. split.
  - now intros [-> ->].
  - now intros [= -> ->].
Qed.

Lemma stringLt_irrefl (a : jsstring) : stringLt a a = false.
Proof.
  induction a as [|x a IH]; simpl; [reflexivity|].
  now rewrite N.ltb_irrefl.
Qed.

Lemma stringLt_asym (a b : jsstring) :
  stringLt a b = true -> stringLt b a = false.
Proof.
  revert b. induction a as [|x a IH]; intros [|y b]; simpl;
    try discriminate; try reflexivity.
  destruct (x <? y)%N eqn:E1; destruct (y <? x)%N eqn:E2;
    try reflexivity; try discriminate.
  - apply N.ltb_lt in E1, E2. lia.
  - apply IH.
Qed.

(** The comparator puts [a] before [b], or leaves them, exactly when
    [b]'s HTML is not below [a]'s. *)
Lemma compareInnerHTML_le (a b : ChildNode) :
  (compareInnerHTML a b <=? 0)%Z = negb (stringLt (innerHTML b) (innerHTML a)).
Proof.
  unfold compareInnerHTML.
  destruct (JsString.eqb (innerHTML a) (innerHTML b)) eqn:E.
  - apply jsstring_eqb_eq in E. rewrite E. now rewrite stringLt_irrefl.
  - now destruct (stringLt (innerHTML b) (innerHTML a)).
Qed.

Lemma insertSorted_perm compare x l :
  Permutation (insertSorted compare x l) (x :: l).
Proof.
  induction l as [|y l IH]; simpl; [apply Permutation_refl|].
  destruct (compare x y <=? 0)%Z; [apply Permutation_refl|].
  eapply Permutation_trans; [apply perm_skip, IH | apply perm_swap].
Qed.

Lemma sortWith_perm compare l : Permutation (sortWith compare l) l.
Proof.
  induction l as [|x l IH]; simpl; [apply perm_nil|].
  eapply Permutation_trans; [apply insertSorted_perm | now apply perm_skip].
Qed.

Lemma insertSorted_HdRel a x l :
  HdRel notAbove a l -> notAbove a x ->
  HdRel notAbove a (insertSorted compareInnerHTML x l).
Proof.
  intros Hl Hx. destruct l as [|y l]; simpl; [now constructor|].
  destruct (compareInnerHTML x y <=? 0)%Z; constructor; [exact Hx|].
  now inversion Hl.
Qed.

Lemma insertSorted_sorted x l :
  Sorted notAbove l -> Sorted notAbove (insertSorted compareInnerHTML x l).
Proof.
  induction 1 as [|y l Hs IH Hh]; simpl; [repeat constructor|].
  rewrite compareInnerHTML_le.
  destruct (stringLt (innerHTML y) (innerHTML x)) eqn:E; simpl.
  - constructor; [exact IH|].
    apply insertSorted_HdRel; [exact Hh|].
    unfold notAbove. now apply stringLt_asym.
  - constructor; [now constructor|]. now constructor.
Qed.

Lemma sortWith_sorted l : Sorted notAbove (sortWith compareInnerHTML l).
Proof.
  induction l as [|x l IH]; simpl; [constructor|].
  now apply insertSorted_sorted.
Qed.

(** Sorting a list that is in order leaves it as it is. *)
Lemma sortWith_sorted_id l :
  Sorted notAbove l -> sortWith compareInnerHTML l = l.
Proof.
  induction 1 as [|x l Hs IH Hh]; simpl; [reflexivity|].
  rewrite IH. destruct Hh as [|y l Hxy]; simpl; [reflexivity|].
  rewrite compareInnerHTML_le. unfold notAbove in Hxy. now rewrite Hxy.
Qed.

Lemma filter_filter {A} (f g : A -> bool) l :
  filter f (filter g l) = filter (fun x => g x && f x) l.
Proof.
  induction l as [|x l IH]; simpl; [reflexivity|].
  destruct (g x); simpl; [|exact IH]. destruct (f x); now rewrite IH.
Qed.

Lemma filter_all {A} (f : A -> bool) l :
  Forall (fun x => f x = true) l -> filter f l = l.
Proof.
  induction 1 as [|x l Hx _ IH]; simpl; [reflexivity|]. now rewrite Hx, IH.
Qed.

Lemma filter_none {A} (f : A -> bool) l :
  Forall (fun x => f x = false) l -> filter f l = [].
Proof.
  induction 1 as [|x l Hx _ IH]; simpl; [reflexivity|]. now rewrite Hx.
Qed.

Lemma keyIn_app ks x n :
  keyIn (ks ++ [x]) n = keyIn ks n || (nodeKey n =? nodeKey x).
Proof.
  unfold keyIn. rewrite existsb_app. simpl. now rewrite orb_false_r.
Qed.

Lemma keyIn_spec ks n :
  keyIn ks n = true <-> In (nodeKey n) (map nodeKey ks).
Proof.
  unfold keyIn. rewrite existsb_exists, in_map_iff. split.
  - intros [m [Hm E]]. apply Nat.eqb_eq in E. now exists m.
  - intros [m [E Hm]]. exists m. split; [exact Hm|]. now apply Nat.eqb_eq.
Qed.

(** Appending, one after the other, nodes that differ from each other
    moves them to the end, in the order they were appended. *)
Lemma appendChild_fold (moved done children : list ChildNode) :
  NoDup (map nodeKey (done ++ moved)) ->
  fold_left appendChild moved
            (filter (fun n => negb (keyIn done n)) children ++ done)
  = filter (fun n => negb (keyIn (done ++ moved) n)) children
    ++ done ++ moved.
Proof.
  revert done. induction moved as [|x moved IH]; intros done Hnd.
  - now rewrite !app_nil_r.
  - simpl fold_left.
    replace (done ++ x :: moved) with ((done ++ [x]) ++ moved) in *
      by now rewrite <- app_assoc.
    rewrite <- (IH (done ++ [x]) Hnd). f_equal.
    unfold appendChild. rewrite filter_app, filter_filter, <- app_assoc.
    f_equal.
    + apply filter_ext. intros n. rewrite keyIn_app. now rewrite negb_orb.
    + f_equal. apply filter_all.
      rewrite map_app in Hnd. apply NoDup_app_remove_r in Hnd.
      rewrite map_app in Hnd. simpl in Hnd.
      apply NoDup_remove_2 in Hnd. rewrite app_nil_r in Hnd.
      apply Forall_forall. intros n Hn.
      apply negb_true_iff, Nat.eqb_neq. intros E. apply Hnd.
      rewrite <- E. now apply in_map.
Qed.

Lemma NoDup_map_inj {A B} (f : A -> B) l a b :
  NoDup (map f l) -> In a l -> In b l -> f a = f b -> a = b.
Proof.
  induction l as [|x l IH]; simpl; [tauto|].
  intros Hnd Ha Hb E. inversion Hnd as [|? ? Hx Hl]; subst.
  destruct Ha as [->|Ha], Hb as [->|Hb]; try reflexivity.
  - exfalso. apply Hx. rewrite E. now apply in_map.
  - exfalso. apply Hx. rewrite <- E. now apply in_map.
  - now apply IH.
Qed.

Lemma partition_perm {A} (f : A -> bool) l :
  Permutation (filter (fun x => negb (f x)) l ++ filter f l) l.
Proof.
  induction l as [|x l IH]; simpl; [apply perm_nil|].
  destruct (f x); simpl.
  - apply Permutation_sym. eapply Permutation_trans;
      [apply perm_skip, Permutation_sym, IH | apply Permutation_middle].
  - now apply perm_skip.
Qed.

(** The arrangement [sortElementChildren] leaves behind. *)
Lemma sortElementChildren_arrangement children :
  NoDup (map nodeKey children) ->
  sortElementChildren children
  = nonElements children
    ++ sortWith compareInnerHTML (filter isElementNode children).
Proof.
  intros Hnd. unfold sortElementChildren, nonElements.
  set (els := sortWith compareInnerHTML (filter isElementNode children)).
  assert (Hp : Permutation els (filter isElementNode children))
    by apply sortWith_perm.
  assert (Hels : NoDup (map nodeKey els)).
  { eapply Permutation_NoDup;
      [apply Permutation_sym, Permutation_map, Hp|].
    clear - Hnd. induction children as [|x l IH]; simpl; [constructor|].
    inversion Hnd as [|? ? Hx Hl]; subst.
    destruct (isElementNode x); simpl; [|now apply IH].
    constructor; [|now apply IH].
    intros Hin. apply Hx. apply in_map_iff in Hin.
    destruct Hin as [m [E Hm]]. apply filter_In in Hm.
    rewrite <- E. apply in_map. tauto. }
  pose proof (appendChild_fold els [] children) as H.
  simpl in H. rewrite app_nil_r in H.
  replace (filter (fun _ => true) children) with children in H
    by (symmetry; apply filter_all, Forall_forall; reflexivity).
  rewrite (H Hels). f_equal.
  apply filter_ext_in. intros n Hn. f_equal.
  destruct (isElementNode n) eqn:En.
  - apply keyIn_spec, in_map.
    eapply Permutation_in; [apply Permutation_sym, Hp|].
    apply filter_In. tauto.
  - destruct (keyIn els n) eqn:Ek; [|reflexivity].
    apply keyIn_spec, in_map_iff in Ek. destruct Ek as [m [E Hm]].
    apply (Permutation_in _ Hp), filter_In in Hm. destruct Hm as [Hm Em].
    assert (m = n) by exact (NoDup_map_inj nodeKey children m n Hnd Hm Hn E).
    subst. congruence.
Qed.

(** X18: [sortElementChildren] on children that are distinct nodes keeps
    every child: the nodes that are not elements stay first, in their
    order, and the elements follow them, each one's HTML not above the
    next one's in code-unit order. *)
Theorem sortElementChildren_elements_last_in_order children :
  NoDup (map nodeKey children) ->
  exists elements,
    sortElementChildren children = nonElements children ++ elements /\
    Permutation elements (filter isElementNode children) /\
    Sorted notAbove elements /\
    Permutation (sortElementChildren children) children.
Proof.
  intros Hnd.
  exists (sortWith compareInnerHTML (filter isElementNode children)).
  rewrite (sortElementChildren_arrangement children Hnd).
  split; [reflexivity|]. split; [apply sortWith_perm|].
  split; [apply sortWith_sorted|].
  eapply Permutation_trans; [|apply (partition_perm isElementNode)].
  apply Permutation_app_head, sortWith_perm.
Qed.

Lemma sortElementChildren_elements_last_in_order_witness :
  NoDup (map nodeKey Example.mixedChildren) /\
  exists elements,
    sortElementChildren Example.mixedChildren
    = nonElements Example.mixedChildren ++ elements /\
    Permutation elements (filter isElementNode Example.mixedChildren) /\
    Sorted notAbove elements /\
    Permutation (sortElementChildren Example.mixedChildren)
                Example.mixedChildren.
Proof.
  assert (H : NoDup (map nodeKey Example.mixedChildren)).
  { simpl. repeat constructor; simpl; intuition discriminate. }
  split; [exact H|].
  exact (sortElementChildren_elements_last_in_order Example.mixedChildren H).
Defined.

(** X19: sorting the children of a node a second time changes nothing. *)
Theorem sortElementChildren_idempotent children :
  NoDup (map nodeKey children) ->
  sortElementChildren (sortElementChildren children)
  = sortElementChildren children.
Proof.
  intros Hnd.
  assert (Hperm : Permutation (sortElementChildren children) children).
  { rewrite (sortElementChildren_arrangement children Hnd).
    eapply Permutation_trans; [|apply (partition_perm isElementNode)].
    apply Permutation_app_head, sortWith_perm. }
  assert (Hnd' : NoDup (map nodeKey (sortElementChildren children))).
  { eapply Permutation_NoDup;
      [apply Permutation_sym, Permutation_map, Hperm | exact Hnd]. }
  rewrite (sortElementChildren_arrangement _ Hnd').
  rewrite (sortElementChildren_arrangement children Hnd).
  set (els := sortWith compareInnerHTML (filter isElementNode children)).
  assert (Hels : Forall (fun n => isElementNode n = true) els).
  { apply Forall_forall. intros n Hn.
    apply (Permutation_in _ (sortWith_perm _ _)), filter_In in Hn. tauto. }
  unfold nonElements. rewrite !filter_app.
  rewrite (filter_none (fun n => negb (isElementNode n)) els)
    by (eapply Forall_impl; [|exact Hels]; simpl; intros ? ->; reflexivity).
  rewrite (filter_all isElementNode els Hels).
  rewrite filter_filter.
  rewrite (filter_none isElementNode
             (filter (fun n => negb (isElementNode n)) children)).
  2:{ apply Forall_forall. intros n Hn. apply filter_In in Hn.
      now apply negb_true_iff. }
  simpl. rewrite app_nil_r. f_equal.
  - apply filter_ext. intros n. now destruct (isElementNode n).
  - apply sortWith_sorted_id, sortWith_sorted.
Qed.

Lemma sortElementChildren_idempotent_witness :
  NoDup (map nodeKey Example.mixedChildren) /\
  sortElementChildren (sortElementChildren Example.mixedChildren)
  = sortElementChildren Example.mixedChildren.
Proof.
  assert (H : NoDup (map nodeKey Example.mixedChildren)).
  { simpl. repeat constructor; simpl; intuition discriminate. }
  split; [exact H|].
  exact (sortElementChildren_idempotent Example.mixedChildren H).
Defined.

(* ================================================================== *)
(** * Waiting for an element: facts *)
(* ================================================================== *)

(** X20: when the element is missing at the first [n] looks and there at
    the next one, [waitForElementId] calls the callback once, with that
    element, after [n + 1] timers and looks; the first timer runs for
    [time] (100 ms when omitted) and every later one for 100 ms,
    whatever [time] was. *)
Theorem waitForElementId_later_waits_are_100ms
        (n fuel k : nat) (found : nat -> option Element) (el : Element)
        (time : option Z) :
  (forall i, (i < n)%nat -> found (k + i)%nat = None) ->
  found (k + n)%nat = Some el ->
  (n < fuel)%nat ->
  waitForElementId fuel found k time
  = (true,
     SetTimer (match time with Some t => t | None => 100%Z end)
     :: GetElementById
     :: concat (repeat [SetTimer 100%Z; GetElementById] n)
     ++ [CallBack el]).
Proof.
  revert fuel k time.
  induction n as [|n IH]; intros fuel k time Hmiss Hhit Hfuel;
    (destruct fuel as [|fuel]; [lia|]); simpl waitForElementId.
  - rewrite Nat.add_0_r in Hhit. now rewrite Hhit.
  - rewrite <- (Nat.add_0_r k) at 1. rewrite (Hmiss 0%nat) by lia.
    rewrite (IH fuel (S k) None).
    + reflexivity.
    + intros i Hi. rewrite <- (Hmiss (S i)) by lia. f_equal. lia.
    + rewrite <- Hhit. f_equal. lia.
    + lia.
Qed.

Lemma waitForElementId_later_waits_are_100ms_witness :
  (forall i, (i < 2)%nat -> Example.thirdLook (0 + i)%nat = None) /\
  Example.thirdLook (0 + 2)%nat = Some Example.toolbar /\
  (2 < 5)%nat /\
  waitForElementId 5 Example.thirdLook 0 (Some 2000%Z)
  = (true,
     SetTimer (match Some 2000%Z with Some t => t | None => 100%Z end)
     :: GetElementById
     :: concat (repeat [SetTimer 100%Z; GetElementById] 2)
     ++ [CallBack Example.toolbar]).
Proof.
  assert (H : forall i, (i < 2)%nat -> Example.thirdLook (0 + i)%nat = None).
  { intros [|[|i]] Hi; [reflexivity | reflexivity | lia]. }
  split; [exact H|]. split; [reflexivity|]. split; [lia|].
  apply (waitForElementId_later_waits_are_100ms
           2 5 0 Example.thirdLook Example.toolbar (Some 2000%Z) H);
    [reflexivity | lia].
Defined.

(** X21: [waitForElementId] has no way to give up: as long as the
    element is missing it sets a new 100 ms timer after every look and
    never calls the callback. *)
Theorem waitForElementId_never_gives_up
        (fuel k : nat) (found : nat -> option Element) (time : option Z) :
  (forall i, (i < fuel)%nat -> found (k + i)%nat = None) ->
  waitForElementId fuel found k time
  = (false,
     SetTimer (match time with Some t => t | None => 100%Z end)
     :: concat (repeat [GetElementById; SetTimer 100%Z] fuel)).
Proof.
  revert k time. induction fuel as [|fuel IH]; intros k time Hmiss;
    simpl waitForElementId; [reflexivity|].
  rewrite <- (Nat.add_0_r k) at 1. rewrite (Hmiss 0%nat) by lia.
  rewrite (IH (S k) None); [reflexivity|].
  intros i Hi. rewrite <- (Hmiss (S i)) by lia. f_equal. lia.
Qed.

Lemma waitForElementId_never_gives_up_witness :
  (forall i, (i < 2)%nat -> Example.thirdLook (0 + i)%nat = None) /\
  waitForElementId 2 Example.thirdLook 0 None
  = (false,
     SetTimer (match @None Z with Some t => t | None => 100%Z end)
     :: concat (repeat [GetElementById; SetTimer 100%Z] 2)).
Proof.
  assert (H : forall i, (i < 2)%nat -> Example.thirdLook (0 + i)%nat = None).
  { intros [|[|i]] Hi; [reflexivity | reflexivity | lia]. }
  split; [exact H|].
  exact (waitForElementId_never_gives_up 2 0 Example.thirdLook None H).
Defined.
